(** * osrc_download: a shallow embedding of [osrc_download.py]

    The script queries the Samsung open-source portal, scrapes the result
    table and downloads one source release.  This development embeds the
    script statement by statement and proves properties of the search,
    selection, token-resolution and streaming stages.

    Conventions.
    - A Python [str] is a list of Unicode code points ([N]); [bytes] is a
      list of [Byte.byte].
    - A Python [dict] is an association list in insertion order.
    - Exceptions are values of [exn]; a computation that may raise returns
      a [result]; a computation that also touches the outside world (network,
      standard output, file system, progress bar) lives in the monad [M].
    - What the outside world answers (pages, headers, body, faults) is
      collected in an [Environment] record. *)

From Stdlib Require Import ZArith NArith Ascii String List Lia DecimalString.
From Stdlib.Strings Require Import Byte.
From stdpp Require Import base option list gmap.

Open Scope N_scope.

(** ** Python strings *)

Abbreviation str := (list N) (only parsing).
Abbreviation bytes := (list byte) (only parsing).

(** An ASCII literal of the script as a [str]. *)
Definition lit (s : string) : str := map N_of_ascii (list_ascii_of_string s).

Definition str_eqb (a b : str) : bool := bool_decide (a = b).

(** [a.startswith(p)] *)
Fixpoint startswith (p s : str) : bool :=
  match p, s with
  | [], _ => true
  | _ :: _, [] => false
  | x :: p', y :: s' => (x =? y) && startswith p' s'
  end.

Definition push_char (c : N) (fields : list str) : list str :=
  match fields with
  | [] => [[c]]
  | f :: fs => (c :: f) :: fs
  end.

(** [s.split(sep)] for a non-empty separator: fields between the
    non-overlapping occurrences of [sep], scanned from the left.  [skip]
    counts the characters of a matched separator still to be passed over. *)
Fixpoint split_aux (sep : str) (skip : nat) (s : str) : list str :=
  match s with
  | [] => [[]]
  | c :: s' =>
      match skip with
      | S k => split_aux sep k s'
      | O =>
          if startswith sep s
          then [] :: split_aux sep (length sep - 1) s'
          else push_char c (split_aux sep 0 s')
      end
  end.

Definition split (sep s : str) : list str := split_aux sep 0 s.

(** [s.replace(old, new)] for a non-empty [old]. *)
Fixpoint replace_aux (old new : str) (skip : nat) (s : str) : str :=
  match s with
  | [] => []
  | c :: s' =>
      match skip with
      | S k => replace_aux old new k s'
      | O =>
          if startswith old s
          then new ++ replace_aux old new (length old - 1) s'
          else c :: replace_aux old new 0 s'
      end
  end.

Definition replace (old new s : str) : str := replace_aux old new 0 s.

(** [str.isspace] on one code point (CPython's [_PyUnicode_IsWhitespace]). *)
Definition isspace (c : N) : bool :=
  ((0x09 <=? c) && (c <=? 0x0D)) || ((0x1C <=? c) && (c <=? 0x20))
  || (c =? 0x85) || (c =? 0xA0) || (c =? 0x1680)
  || ((0x2000 <=? c) && (c <=? 0x200A))
  || (c =? 0x2028) || (c =? 0x2029) || (c =? 0x202F) || (c =? 0x205F)
  || (c =? 0x3000).

Fixpoint lstrip (s : str) : str :=
  match s with
  | [] => []
  | c :: s' => if isspace c then lstrip s' else s
  end.

Definition rstrip (s : str) : str := reverse (lstrip (reverse s)).

(** [s.strip()] *)
Definition strip (s : str) : str := rstrip (lstrip s).

(** [s[1:]] *)
Definition slice_from_1 (s : str) : str := drop 1 s.

(** [str(n)] for a non-negative integer. *)
Definition str_of_nat (n : nat) : str :=
  lit (NilZero.string_of_uint (Nat.to_uint n)).

(** ** UTF-8 and URL quoting *)

Definition byte_of_N (n : N) : byte := default x00 (Byte.of_N n).

(** UTF-8 encoding of one code point; [None] where CPython raises
    [UnicodeEncodeError] (surrogates, and values that are no code point). *)
Definition encode_char (c : N) : option bytes :=
  if c <? 0x80 then Some [byte_of_N c]
  else if c <? 0x800 then
    Some [byte_of_N (N.lor 0xC0 (N.shiftr c 6));
          byte_of_N (N.lor 0x80 (N.land c 0x3F))]
  else if c <? 0x10000 then
    if (0xD800 <=? c) && (c <=? 0xDFFF) then None
    else Some [byte_of_N (N.lor 0xE0 (N.shiftr c 12));
               byte_of_N (N.lor 0x80 (N.land (N.shiftr c 6) 0x3F));
               byte_of_N (N.lor 0x80 (N.land c 0x3F))]
  else if c <? 0x110000 then
    Some [byte_of_N (N.lor 0xF0 (N.shiftr c 18));
          byte_of_N (N.lor 0x80 (N.land (N.shiftr c 12) 0x3F));
          byte_of_N (N.lor 0x80 (N.land (N.shiftr c 6) 0x3F));
          byte_of_N (N.lor 0x80 (N.land c 0x3F))]
  else None.

(** [s.encode("utf-8")] *)
Fixpoint encode_utf8 (s : str) : option bytes :=
  match s with
  | [] => Some []
  | c :: s' =>
      match encode_char c, encode_utf8 s' with
      | Some b, Some bs => Some (b ++ bs)
      | _, _ => None
      end
  end.

Definition hex_digit (n : N) : N :=
  if n <? 10 then 48 + n else 55 + n.

(** The characters [urllib.parse.quote] never escapes, plus its default
    [safe="/"]. *)
Definition quote_safe (b : N) : bool :=
  ((65 <=? b) && (b <=? 90)) || ((97 <=? b) && (b <=? 122))
  || ((48 <=? b) && (b <=? 57))
  || (b =? 95) || (b =? 46) || (b =? 45) || (b =? 126) || (b =? 47).

Definition quote_byte (b : byte) : str :=
  let n := Byte.to_N b in
  if quote_safe n then [n]
  else [37; hex_digit (N.shiftr n 4); hex_digit (N.land n 15)].

(** [urllib.parse.quote(s)]; [None] when the UTF-8 encoding fails. *)
Definition quote (s : str) : option str :=
  match encode_utf8 s with
  | Some bs => Some (concat (map quote_byte bs))
  | None => None
  end.

(** ** Exceptions and results *)

Inductive exn :=
| IndexError
| KeyError
| TypeError
| AttributeError
| ValueError
| UnicodeEncodeError
| FileNotFoundError
| NameError
| KeyboardInterrupt
| OtherException          (* network, disk and any further failure *)
| SystemExit (code : Z).

Inductive result (A : Type) :=
| Ok (a : A)
| Raise (e : exn).
Arguments Ok {A} a.
Arguments Raise {A} e.

Definition rbind {A B} (r : result A) (f : A -> result B) : result B :=
  match r with
  | Ok a => f a
  | Raise e => Raise e
  end.

Declare Scope result_scope.
Delimit Scope result_scope with result.
Notation "'let?' x := r 'in' k" := (rbind r (fun x => k))
  (at level 10, x name, r at level 100, k at level 200) : result_scope.
Open Scope result_scope.

(** [l[i]] on a Python list. *)
Definition index {A} (l : list A) (i : nat) : result A :=
  match l !! i with
  | Some a => Ok a
  | None => Raise IndexError
  end.

(** ** Python values and dictionaries *)

Inductive pyval :=
| VStr (s : str)
| VList (l : list str)
| VBytes (b : bytes).

(** A [dict] with string keys, in insertion order. *)
Abbreviation dict := (list (str * pyval)) (only parsing).

(** [d[k]] *)
Fixpoint dict_get (d : dict) (k : str) : result pyval :=
  match d with
  | [] => Raise KeyError
  | (k', v) :: d' => if str_eqb k' k then Ok v else dict_get d' k
  end.

(** [d[k] = v]: overwrite in place, or append a new key. *)
Fixpoint dict_set (d : dict) (k : str) (v : pyval) : dict :=
  match d with
  | [] => [(k, v)]
  | (k', v') :: d' =>
      if str_eqb k' k then (k', v) :: d' else (k', v') :: dict_set d' k v
  end.

Definition keys (d : dict) : list str := map fst d.

(** ** The parsed page (BeautifulSoup's tree) *)

(** An element with its attribute dictionary and children, or a text node.
    The [class] attribute (and the other multi-valued ones) holds a
    [VList]; every other attribute holds a [VStr]. *)
#[warnings="-register-all"]
Inductive node :=
| Tag (name : str) (attrs : dict) (children : list node)
| NavigableString (s : str).

(** All nodes below [n], in document order. *)
Fixpoint descendants (n : node) : list node :=
  match n with
  | Tag _ _ cs =>
      (fix go (l : list node) : list node :=
         match l with
         | [] => []
         | c :: l' => c :: descendants c ++ go l'
         end) cs
  | NavigableString _ => []
  end.

(** [n.text]: the text nodes below [n], concatenated. *)
Fixpoint get_text (n : node) : str :=
  match n with
  | Tag _ _ cs =>
      (fix go (l : list node) : str :=
         match l with
         | [] => []
         | c :: l' => get_text c ++ go l'
         end) cs
  | NavigableString s => s
  end.

(** [" ".join(l)] *)
Fixpoint join_space (l : list str) : str :=
  match l with
  | [] => []
  | [x] => x
  | x :: l' => x ++ 32 :: join_space l'
  end.

(** BeautifulSoup's match of one attribute value against a search string:
    a missing attribute matches only the empty search string; a
    multi-valued attribute matches when one of its values does, or when
    its values joined by spaces do. *)
Definition attr_matches (v : option pyval) (want : str) : bool :=
  match v with
  | None => str_eqb want []
  | Some (VStr s) => str_eqb s want
  | Some (VList l) => existsb (fun s => str_eqb s want) l || str_eqb (join_space l) want
  | Some (VBytes _) => false
  end.

Definition attr_lookup (d : dict) (k : str) : option pyval :=
  match dict_get d k with
  | Ok v => Some v
  | Raise _ => None
  end.

Definition tag_matches (name : option str) (want : list (str * str)) (n : node) : bool :=
  match n with
  | Tag nm attrs _ =>
      match name with
      | Some x => str_eqb nm x
      | None => true
      end
      && forallb (fun kv => attr_matches (attr_lookup attrs (fst kv)) (snd kv)) want
  | NavigableString _ => false
  end.

(** [n.find_all(name, **want)]: the matching elements below [n], in
    document order. *)
Definition find_all (name : option str) (want : list (str * str)) (n : node)
  : list node :=
  List.filter (tag_matches name want) (descendants n).

(** [n.find(name)]: the first match, or Python's [None]. *)
Definition find (name : option str) (n : node) : option node :=
  head (find_all name [] n).

(** [n[key]] on an element. *)
Definition getitem (n : node) (key : str) : result pyval :=
  match n with
  | Tag _ attrs _ => dict_get attrs key
  | NavigableString _ => Raise TypeError
  end.

(** A method of [str] called on a value: only a [str] has it. *)
Definition as_str (v : pyval) : result str :=
  match v with
  | VStr s => Ok s
  | _ => Raise AttributeError
  end.

(** ** Constants of the script (lines 29-32) *)

Definition baseURL : str := lit "https://opensource.samsung.com".
Definition searchURL : str := baseURL ++ lit "/uploadSearch?searchValue=".
Definition modalURL : str := baseURL ++ lit "/downSrcMPop?uploadId=".
Definition downSrcURL : str := baseURL ++ lit "/downSrcCode".

(** ** Command line (lines 35-44) *)

Inductive subcommand :=
| Search (json : bool)
| Download (version : str).

(** The namespace returned by [parser.parse_args()]; [command] is [None]
    when no sub-command is given. *)
Record Namespace := {
  model : str;
  command : option subcommand
}.

(** *** The argparse library

    Line 43, [parser.parse_args()], runs the library's [ArgumentParser] on
    the parsers that lines 35-41 configure.  The definitions below follow
    [Lib/argparse.py] of CPython 3.11 for these parsers; they keep the
    library's names.  The command line is [sys.argv[1:]]. *)

(** The actions of the declared options: [-h] / [--help], which the library
    adds to every parser, [store] (lines 36 and 41) and [store_true]
    (line 39). *)
Inductive action := HelpAction | StoreAction | StoreTrueAction.

Record parser := {
  option_string_actions : list (str * action);
  (* the positional [command] of line 37 *)
  has_subparsers : bool
}.

Definition main_parser : parser :=
  {| option_string_actions :=
       [(lit "-h", HelpAction); (lit "--help", HelpAction);
        (lit "-m", StoreAction); (lit "--model", StoreAction)];
     has_subparsers := true |}.

Definition search_parser : parser :=
  {| option_string_actions :=
       [(lit "-h", HelpAction); (lit "--help", HelpAction);
        (lit "-j", StoreTrueAction); (lit "--json", StoreTrueAction)];
     has_subparsers := false |}.

Definition download_parser : parser :=
  {| option_string_actions :=
       [(lit "-h", HelpAction); (lit "--help", HelpAction);
        (lit "-v", StoreAction); (lit "--version", StoreAction)];
     has_subparsers := false |}.

(** [self._option_string_actions.get(s)] *)
Fixpoint lookup_action (opts : list (str * action)) (s : str) : option action :=
  match opts with
  | [] => None
  | (o, a) :: opts' => if str_eqb o s then Some a else lookup_action opts' s
  end.

(** [s.split(c, 1)] when [c] occurs in [s], [None] when it does not. *)
Fixpoint split_once (c : N) (s : str) : option (str * str) :=
  match s with
  | [] => None
  | x :: s' =>
      if x =? c then Some ([], s')
      else match split_once c s' with
           | Some (a, b) => Some (x :: a, b)
           | None => None
           end
  end.

(** The code points that [\d] matches in a [str] pattern: the decimal
    digits of Unicode 14.0, in ranges. *)
Definition decimal_ranges : list (N * N) :=
  [ (0x30, 0x39); (0x660, 0x669); (0x6F0, 0x6F9); (0x7C0, 0x7C9);
    (0x966, 0x96F); (0x9E6, 0x9EF); (0xA66, 0xA6F); (0xAE6, 0xAEF);
    (0xB66, 0xB6F); (0xBE6, 0xBEF); (0xC66, 0xC6F); (0xCE6, 0xCEF);
    (0xD66, 0xD6F); (0xDE6, 0xDEF); (0xE50, 0xE59); (0xED0, 0xED9);
    (0xF20, 0xF29); (0x1040, 0x1049); (0x1090, 0x1099); (0x17E0, 0x17E9);
    (0x1810, 0x1819); (0x1946, 0x194F); (0x19D0, 0x19D9); (0x1A80, 0x1A89);
    (0x1A90, 0x1A99); (0x1B50, 0x1B59); (0x1BB0, 0x1BB9); (0x1C40, 0x1C49);
    (0x1C50, 0x1C59); (0xA620, 0xA629); (0xA8D0, 0xA8D9); (0xA900, 0xA909);
    (0xA9D0, 0xA9D9); (0xA9F0, 0xA9F9); (0xAA50, 0xAA59); (0xABF0, 0xABF9);
    (0xFF10, 0xFF19); (0x104A0, 0x104A9); (0x10D30, 0x10D39);
    (0x11066, 0x1106F); (0x110F0, 0x110F9); (0x11136, 0x1113F);
    (0x111D0, 0x111D9); (0x112F0, 0x112F9); (0x11450, 0x11459);
    (0x114D0, 0x114D9); (0x11650, 0x11659); (0x116C0, 0x116C9);
    (0x11730, 0x11739); (0x118E0, 0x118E9); (0x11950, 0x11959);
    (0x11C50, 0x11C59); (0x11D50, 0x11D59); (0x11DA0, 0x11DA9);
    (0x16A60, 0x16A69); (0x16AC0, 0x16AC9); (0x16B50, 0x16B59);
    (0x1D7CE, 0x1D7FF); (0x1E140, 0x1E149); (0x1E2F0, 0x1E2F9);
    (0x1E950, 0x1E959); (0x1FBF0, 0x1FBF9) ].

Definition isdecimal (c : N) : bool :=
  existsb (fun r => (fst r <=? c) && (c <=? snd r)) decimal_ranges.

Definition all_decimal (s : str) : bool :=
  match s with
  | [] => false
  | _ :: _ => forallb isdecimal s
  end.

Fixpoint skip_decimal (s : str) : str :=
  match s with
  | [] => []
  | c :: s' => if isdecimal c then skip_decimal s' else s
  end.

(** A match of [-\d+] or [-\d*\.\d+] over the whole of [s]. *)
Definition negative_number_body (s : str) : bool :=
  match s with
  | 45 :: t =>
      all_decimal t
      || match skip_decimal t with
         | 46 :: u => all_decimal u
         | _ => false
         end
  | _ => false
  end.

(** [self._negative_number_matcher.match(s)], the pattern being
    [^-\d+$|^-\d*\.\d+$]: [$] also matches before a final newline. *)
Definition negative_number (s : str) : bool :=
  negative_number_body s
  || match last s with
     | Some 10 => negative_number_body (removelast s)
     | _ => false
     end.

(** [_get_option_tuples]: the options that [s] abbreviates, each with its
    option string and the explicit argument that [s] carries. *)
Definition get_option_tuples (opts : list (str * action)) (s : str)
  : list (action * str * option str) :=
  match s with
  | c0 :: c1 :: _ =>
      if c1 =? 45 then
        let '(option_prefix, explicit_arg) :=
          match split_once 61 s with
          | Some (o, e) => (o, Some e)
          | None => (s, None)
          end in
        omap (fun oa : str * action =>
                if startswith option_prefix (fst oa)
                then Some (snd oa, fst oa, explicit_arg) else None) opts
      else
        omap (fun oa : str * action =>
                if str_eqb (fst oa) (take 2 s)
                then Some (snd oa, fst oa, Some (drop 2 s))
                else if startswith s (fst oa)
                then Some (snd oa, fst oa, None) else None) opts
  | _ => []
  end.

(** The answers of [_parse_optional]. *)
Inductive optional :=
| NotOptional                     (* [None]: the argument is a positional *)
| Known (a : action) (option_string : str) (explicit_arg : option str)
| Unknown                         (* [(None, arg_string, None)] *)
| AmbiguousOption.                (* [self.error]: several options match *)

Definition parse_optional (p : parser) (arg_string : str) : optional :=
  match arg_string with
  | [] => NotOptional
  | c :: _ =>
      if negb (c =? 45) then NotOptional
      else
        match lookup_action (option_string_actions p) arg_string with
        | Some a => Known a arg_string None
        | None =>
            if (length arg_string =? 1)%nat then NotOptional
            else
              match
                match split_once 61 arg_string with
                | Some (o, e) =>
                    match lookup_action (option_string_actions p) o with
                    | Some a => Some (Known a o (Some e))
                    | None => None
                    end
                | None => None
                end
              with
              | Some k => k
              | None =>
                  match get_option_tuples (option_string_actions p) arg_string with
                  | _ :: _ :: _ => AmbiguousOption
                  | [(a, o, e)] => Known a o e
                  | [] =>
                      if negative_number arg_string then NotOptional
                      else if existsb (N.eqb 32) arg_string then NotOptional
                      else Unknown
                  end
              end
        end
  end.

(** The first pass of [_parse_known_args] classifies every argument before
    the first [--]; an ambiguous one is an error before any action runs. *)
Fixpoint ambiguous_argument (p : parser) (arg_strings : list str) : bool :=
  match arg_strings with
  | [] => false
  | s :: rest =>
      if str_eqb s (lit "--") then false
      else match parse_optional p s with
           | AmbiguousOption => true
           | _ => ambiguous_argument p rest
           end
  end.

(** What [store] leaves in the namespace.  [_get_values] first drops an
    argument [--], which leaves the empty list as the value; the options
    here receive at most one argument. *)
Inductive value := Str (s : str) | EmptyList.

Definition get_values (arg_strings : list str) : value :=
  match arg_strings with
  | [s] => if str_eqb s (lit "--") then EmptyList else Str s
  | _ => EmptyList
  end.

(** [match_argument(action, 'A')]: the explicit argument is taken by
    [store], whose [nargs] is [None]; the other actions have [nargs=0]. *)
Definition takes_argument (a : action) : bool :=
  match a with
  | StoreAction => true
  | _ => false
  end.

(** [consume_optional] on an option without explicit argument: [next] is the
    following argument when the pattern there is ['A']. *)
Definition without_explicit_arg (a : action) (next : option str)
  : option (list (action * list str) * bool) :=
  if takes_argument a then
    match next with
    | Some v => Some ([(a, [v])], true)
    | None => None
    end
  else Some ([(a, [])], false).

(** [consume_optional] on an option with an explicit argument: the actions
    to take, in order, each with its argument, and whether the following
    argument is consumed; [None] is an [ArgumentError].  After a
    single-dash option that takes no argument the explicit argument is
    read as further single-dash options. *)
Fixpoint with_explicit_arg (p : parser) (a : action) (option_string : str)
         (explicit_arg : str) (next : option str)
  : option (list (action * list str) * bool) :=
  if takes_argument a then Some ([(a, [explicit_arg])], false)
  else
    match explicit_arg with
    | [] => None
    | c :: rest =>
        if match option_string !! 1%nat with
           | Some c1 => c1 =? 45
           | None => true
           end
        then None
        else
          match lookup_action (option_string_actions p) [45; c] with
          | None => None
          | Some a' =>
              match
                match rest with
                | [] => without_explicit_arg a' next
                | _ :: _ => with_explicit_arg p a' [45; c] rest next
                end
              with
              | Some (actions, consumed) => Some ((a, []) :: actions, consumed)
              | None => None
              end
          end
    end.

Definition consume_optional (p : parser) (a : action) (option_string : str)
           (explicit_arg : option str) (next : option str)
  : option (list (action * list str) * bool) :=
  match explicit_arg with
  | Some e => with_explicit_arg p a option_string e next
  | None => without_explicit_arg a next
  end.

(** The namespace under construction and the unrecognised arguments. *)
Record parsing := {
  stored : option value;        (* [model], or [version] *)
  json : bool;
  extras : list str
}.

(** [take_action] for each action in turn; [None] when a help action
    prints the help and exits. *)
Fixpoint take_actions (actions : list (action * list str)) (st : parsing)
  : option parsing :=
  match actions with
  | [] => Some st
  | (HelpAction, _) :: _ => None
  | (StoreTrueAction, _) :: rest =>
      take_actions rest {| stored := stored st; json := true; extras := extras st |}
  | (StoreAction, args) :: rest =>
      take_actions rest
        {| stored := Some (get_values args); json := json st;
           extras := extras st |}
  end.

Inductive parsed :=
| Finished (st : parsing) (command : option (str * list str))
| HelpPrinted                   (* [parser.exit()], status 0 *)
| ErrorExit.                    (* [parser.error()], status 2 *)

(** The argument after an option, when its pattern is ['A']. *)
Definition next_argument (p : parser) (rest : list str) : option str :=
  match rest with
  | [] => None
  | v :: _ =>
      if str_eqb v (lit "--") then None
      else match parse_optional p v with
           | NotOptional => Some v
           | _ => None
           end
  end.

Definition add_extras (new : list str) (st : parsing) : parsing :=
  {| stored := stored st; json := json st; extras := extras st ++ new |}.

(** The loop of [_parse_known_args], from left to right.  The positional
    of the main parser takes the first argument that no option consumes,
    and every argument after it; a parser without positionals leaves such
    arguments in [extras].  An argument [--] ends the options: the main
    parser then reads it as the sub-command's name, which is no valid
    choice (or, when it comes last, leaves it unrecognised), and a
    sub-parser leaves it and what follows in [extras]. *)
Fixpoint consume (p : parser) (arg_strings : list str) (st : parsing) : parsed :=
  match arg_strings with
  | [] => Finished st None
  | s :: rest =>
      if str_eqb s (lit "--") then
        if has_subparsers p then ErrorExit
        else Finished (add_extras arg_strings st) None
      else
        match parse_optional p s with
        | NotOptional =>
            if has_subparsers p then Finished st (Some (s, rest))
            else consume p rest (add_extras [s] st)
        | Unknown => consume p rest (add_extras [s] st)
        | AmbiguousOption => ErrorExit
        | Known a o e =>
            match consume_optional p a o e (next_argument p rest) with
            | None => ErrorExit
            | Some (actions, consumed) =>
                match take_actions actions st with
                | None => HelpPrinted
                | Some st' =>
                    if consumed then
                      match rest with
                      | _ :: rest' => consume p rest' st'
                      | [] => ErrorExit
                      end
                    else consume p rest st'
                end
            end
        end
  end.

Definition parse_known_args (p : parser) (arg_strings : list str) : parsed :=
  if ambiguous_argument p arg_strings then ErrorExit
  else consume p arg_strings {| stored := None; json := false; extras := [] |}.

(** The outcomes of [parser.parse_args()]. *)
Inductive parse_result :=
| Parsed (args : Namespace)
| HelpExit                      (* help printed, [SystemExit(0)] *)
| UsageError                    (* usage and error printed, [SystemExit(2)] *)
| ParsedList.                   (* a namespace whose [model] or [version] is
                                   the empty list: an explicit argument [--] *)

(** The sub-command as the sub-parser leaves it. *)
Inductive parsed_command :=
| NoCommand
| SearchCommand (json : bool)
| DownloadCommand (version : value).

Definition namespace_of (m : value) (c : parsed_command) : parse_result :=
  match m, c with
  | Str x, NoCommand => Parsed {| model := x; command := None |}
  | Str x, SearchCommand j => Parsed {| model := x; command := Some (Search j) |}
  | Str x, DownloadCommand (Str v) =>
      Parsed {| model := x; command := Some (Download v) |}
  | _, _ => ParsedList
  end.

(** The end of [parse_known_args] and of [parse_args] in the main parser:
    the required [-m] must have been seen, and no argument may be left
    unrecognised, by the main parser or by the sub-parser. *)
Definition finish (st : parsing) (sub_extras : list str) (c : parsed_command)
  : parse_result :=
  match stored st, extras st ++ sub_extras with
  | None, _ => UsageError
  | Some _, _ :: _ => UsageError
  | Some m, [] => namespace_of m c
  end.

(** [parser.parse_args()].  The sub-parsers are added without
    [required=True], so a command line may end without a sub-command.  A
    sub-command is looked up by its exact name; its parser runs on the
    arguments that follow it, before the final checks of the main parser,
    and [-v] is required there. *)
Definition parse_args (argv : list str) : parse_result :=
  match parse_known_args main_parser argv with
  | HelpPrinted => HelpExit
  | ErrorExit => UsageError
  | Finished st None => finish st [] NoCommand
  | Finished st (Some (name, rest)) =>
      if str_eqb name (lit "search") then
        match parse_known_args search_parser rest with
        | HelpPrinted => HelpExit
        | ErrorExit => UsageError
        | Finished st' _ => finish st (extras st') (SearchCommand (json st'))
        end
      else if str_eqb name (lit "download") then
        match parse_known_args download_parser rest with
        | HelpPrinted => HelpExit
        | ErrorExit => UsageError
        | Finished st' _ =>
            match stored st' with
            | None => UsageError
            | Some v => finish st (extras st') (DownloadCommand v)
            end
        end
      else UsageError
  end.

(** ** Selection (lines 47-48) *)

(** [item["sourceVersion"] == str(version)]; a missing key raises. *)
Definition version_is (version : str) (item : dict) : result bool :=
  let? v := dict_get item (lit "sourceVersion") in
  Ok (match v with
      | VStr s => str_eqb s version
      | _ => false
      end).

(** [next((item for ... if item["sourceVersion"] == str(version)), None)] *)
Fixpoint find_source_by_sourcever (dict_target : list dict) (version : str)
  : result (option dict) :=
  match dict_target with
  | [] => Ok None
  | item :: rest =>
      let? hit := version_is version item in
      if hit then Ok (Some item) else find_source_by_sourcever rest version
  end.

(** ** Search page extraction (lines 58-75) *)

(** One iteration of the row loop: the dictionary appended for [row]. *)
Definition parse_row (row : node) : result dict :=
  let dataSearchTable := find_all (Some (lit "td")) [] row in
  let? td1 := index dataSearchTable 1 in
  let sourceModel := strip (get_text td1) in
  let? td2 := index dataSearchTable 2 in
  let sourceVersion := strip (get_text td2) in
  let? td5 := index dataSearchTable 5 in
  let? a := match find (Some (lit "a")) td5 with
            | Some a => Ok a
            | None => Raise TypeError
            end in
  let? href := getitem a (lit "href") in
  let? href_s := as_str href in
  let? sourceUploadId := index (split (lit "'") href_s) 1 in
  Ok [ (lit "uploadId", VStr sourceUploadId);
       (lit "downloadPurpose", VStr (lit "AOP"));
       (lit "sourceVersion", VStr sourceVersion);
       (lit "sourceModel", VStr sourceModel) ].

(** The [for] loop of lines 63-75, appending to [dataList]. *)
Fixpoint row_loop (rows : list node) (dataList : list dict) : result (list dict) :=
  match rows with
  | [] => Ok dataList
  | row :: rows' =>
      let? d := parse_row row in
      row_loop rows' (dataList ++ [d])
  end.

(** Lines 59-60: the rows iterated over. *)
Definition rowSearchTable (parseSearchContent : node) : result (list node) :=
  let searchTable :=
    find_all (Some (lit "table")) [(lit "class", lit "tbl-downList")]
             parseSearchContent in
  let? table := index searchTable 0 in
  Ok (find_all (Some (lit "tr")) [(lit "class", [])] table).

(** Lines 59-75: the candidate list of a parsed search page. *)
Definition extract_dataList (parseSearchContent : node) : result (list dict) :=
  let? rows := rowSearchTable parseSearchContent in
  row_loop rows [].

(** ** The outside world *)

Inductive request :=
| GET (url : str)
| POST (url : str) (data : dict) (headers : list (str * str)).

(** What [print] wrote: a line of text, or [json.dumps(data, indent=4)]
    (the serialisation itself is the library's). *)
Inductive output :=
| Line (s : str)
| JsonDump (data : list dict).

(** A [tqdm] progress bar: its total, its counter and whether it is closed. *)
Record tqdm := {
  total : Z;
  n : nat;
  closed : bool
}.

Record world := {
  net : list request;            (* requests sent, oldest first *)
  stdout : list output;          (* what was printed, oldest first *)
  fs : gmap (list N) (list byte);  (* files of the working directory *)
  progressBar : option tqdm      (* [None] while the variable is unbound *)
}.

(** A streamed download response. *)
Record response := {
  headers : list (str * str);
  body : bytes
}.

(** Where a fault strikes while chunk number [f_chunk] is processed: while
    the chunk is read from the network, while it is written (after
    [written] of its bytes reached the file), or after the write, before
    the progress bar is advanced.  A read fault at the index one past the
    last chunk strikes while the end of the body is awaited. *)
Inductive phase :=
| AtRead
| AtWrite (written : nat)
| AtUpdate.

Record fault := {
  f_chunk : nat;
  f_phase : phase;
  f_exn : exn
}.

(** The answers of the outside world during one run. *)
Record Environment := {
  (* [BeautifulSoup(session.get(url).content, "html.parser")] *)
  get_page : str -> result node;
  (* [session.post(url, data=..., headers=..., stream=True)] *)
  post_response : str -> dict -> list (str * str) -> result response;
  (* whether [open(name, "wb")] fails *)
  open_fault : str -> option exn;
  (* the fault, if any, that strikes the streaming loop *)
  stream_fault : option fault
}.

(** ** The monad of the script *)

Definition M (A : Type) : Type := world -> result A * world.

Definition ret {A} (a : A) : M A := fun w => (Ok a, w).

Definition bind {A B} (m : M A) (f : A -> M B) : M B :=
  fun w =>
    match m w with
    | (Ok a, w') => f a w'
    | (Raise e, w') => (Raise e, w')
    end.

Definition raise {A} (e : exn) : M A := fun w => (Raise e, w).

Definition lift {A} (r : result A) : M A := fun w => (r, w).

Declare Scope M_scope.
Delimit Scope M_scope with M.
Notation "'let!' x := m 'in' k" := (bind m (fun x => k))
  (at level 10, x name, m at level 100, k at level 200) : M_scope.
Notation "m ';;;' k" := (bind m (fun _ => k))
  (at level 100, k at level 200, right associativity) : M_scope.
Open Scope M_scope.

(** [try: body except KeyboardInterrupt: ... except: ...] *)
Definition try_except {A} (body : M A) (handler : exn -> M A) : M A :=
  fun w =>
    match body w with
    | (Ok a, w') => (Ok a, w')
    | (Raise e, w') => handler e w'
    end.

(** [exit(code)] *)
Definition exit {A} (code : Z) : M A := raise (SystemExit code).

(** ** Primitive effects *)

(** The world after one more request, and after one more printed item. *)
Definition sent (r : request) (w : world) : world :=
  {| net := net w ++ [r]; stdout := stdout w; fs := fs w;
     progressBar := progressBar w |}.

Definition printed (o : output) (w : world) : world :=
  {| net := net w; stdout := stdout w ++ [o]; fs := fs w;
     progressBar := progressBar w |}.

Definition send (r : request) : M unit := fun w => (Ok tt, sent r w).

Definition print (o : output) : M unit := fun w => (Ok tt, printed o w).

Definition set_fs (f : gmap (list N) (list byte)) (w : world) : world :=
  {| net := net w; stdout := stdout w; fs := f; progressBar := progressBar w |}.

Definition set_bar (b : option tqdm) (w : world) : world :=
  {| net := net w; stdout := stdout w; fs := fs w; progressBar := b |}.

(** [session.get(url)] followed by [BeautifulSoup(...)]. *)
Definition session_get (env : Environment) (url : str) : M node :=
  send (GET url);;; lift (get_page env url).

(** [session.post(url, data=data, headers=headers, stream=True)] *)
Definition session_post (env : Environment) (url : str) (data : dict)
           (hdrs : list (str * str)) : M response :=
  send (POST url data hdrs);;; lift (post_response env url data hdrs).

(** [progressBar = tqdm(total=..., ...)] *)
Definition tqdm_new (t : Z) : M unit :=
  fun w => (Ok tt, set_bar (Some {| total := t; n := 0; closed := false |}) w).

(** [progressBar.update(k)] *)
Definition tqdm_update (k : nat) : M unit :=
  fun w =>
    match progressBar w with
    | Some b =>
        (Ok tt, set_bar (Some {| total := total b; n := n b + k;
                                 closed := closed b |}) w)
    | None => (Raise NameError, w)
    end.

(** [progressBar.close()] *)
Definition tqdm_close : M unit :=
  fun w =>
    match progressBar w with
    | Some b =>
        (Ok tt, set_bar (Some {| total := total b; n := n b; closed := true |}) w)
    | None => (Raise NameError, w)
    end.

(** [open(name, "wb")]: the file is created, or truncated. *)
Definition open_wb (env : Environment) (name : str) : M unit :=
  fun w =>
    match open_fault env name with
    | Some e => (Raise e, w)
    | None => (Ok tt, set_fs (<[name := []]> (fs w)) w)
    end.

(** [file.write(data)]: the bytes are appended to the file. *)
Definition file_write (name : str) (data : bytes) : M unit :=
  fun w =>
    (Ok tt, set_fs (<[name := default [] (fs w !! name) ++ data]> (fs w)) w).

(** [os.remove(name)] *)
Definition os_remove (name : str) : M unit :=
  fun w =>
    match fs w !! name with
    | Some _ => (Ok tt, set_fs (delete name (fs w)) w)
    | None => (Raise FileNotFoundError, w)
    end.

(** ** Response headers *)

Definition lower_ascii (c : N) : N :=
  if (65 <=? c) && (c <=? 90) then c + 32 else c.

(** [headers[key]]: the header dictionary of [requests] compares keys
    without regard to case (header names are ASCII). *)
Fixpoint header_get (h : list (str * str)) (key : str) : result str :=
  match h with
  | [] => Raise KeyError
  | (k, v) :: h' =>
      if str_eqb (map lower_ascii k) (map lower_ascii key) then Ok v
      else header_get h' key
  end.

(** The digits of a decimal literal, with single underscores allowed
    between digits. *)
Fixpoint int_digits (s : str) (acc : Z) (after_digit : bool) : option Z :=
  match s with
  | [] => if after_digit then Some acc else None
  | c :: s' =>
      if (48 <=? c) && (c <=? 57)
      then int_digits s' (10 * acc + Z.of_N (c - 48))%Z true
      else if (c =? 95) && after_digit then int_digits s' acc false
      else None
  end.

(** [int(s)] for ASCII decimal text: surrounding whitespace, an optional
    sign, digits.  (Non-ASCII digits, which CPython also accepts, raise
    here.) *)
Definition py_int (s : str) : result Z :=
  let r :=
    match strip s with
    | 45 :: d => option_map Z.opp (int_digits d 0%Z false)
    | 43 :: d => int_digits d 0%Z false
    | d => int_digits d 0%Z false
    end in
  match r with
  | Some z => Ok z
  | None => Raise ValueError
  end.

(** ** Download (lines 88-130) *)

(** [a + v] where [a] is a [str]. *)
Definition str_add (a : str) (v : pyval) : result str :=
  match v with
  | VStr s => Ok (a ++ s)
  | _ => Raise TypeError
  end.

(** A value inside an f-string.  Only [str] values are stored under the
    keys that the script formats (lines 70-75); the [repr] of the other
    kinds is not modelled. *)
Definition format_value (v : pyval) : result str :=
  match v with
  | VStr s => Ok s
  | _ => Raise TypeError
  end.

Definition requestHeader : list (str * str) :=
  [ (lit "Content-Type", lit "application/x-www-form-urlencoded");
    (lit "User-Agent",
     lit "Mozilla/5.0 (Windows NT 10.0; Win64; x64) AppleWebKit/537.36 (KHTML, like Gecko) Chrome/99.0.4844.74 Safari/537.36 Edg/99.0.1150.55") ].

(** Line 109: the file name taken from the [Content-Disposition] value. *)
Definition sourceFileName_of (content_disposition : str) : result str :=
  let? field := index (split (lit "=") content_disposition) 1 in
  Ok (replace (lit ";") [] (replace [34] [] (slice_from_1 field))).

(** Lines 99-101: the three values read from the modal page, stored into
    the selected dictionary one after the other. *)
Definition resolve_tokens (parseModalRequest : node) (selectedSource : dict)
  : result dict :=
  let? box := index (find_all (Some (lit "input")) [(lit "type", lit "checkbox")]
                              parseModalRequest) 1 in
  let? attachIds := getitem box (lit "id") in
  let selectedSource := dict_set selectedSource (lit "attachIds") attachIds in
  let? field := index (find_all None [(lit "name", lit "_csrf")]
                                parseModalRequest) 0 in
  let? csrf := getitem field (lit "value") in
  let selectedSource := dict_set selectedSource (lit "_csrf") csrf in
  let? elem := index (find_all None [(lit "id", lit "token")]
                               parseModalRequest) 0 in
  let? value := getitem elem (lit "value") in
  let? value_s := as_str value in
  let? token := match encode_utf8 value_s with
                | Some b => Ok b
                | None => Raise UnicodeEncodeError
                end in
  Ok (dict_set selectedSource (lit "token") (VBytes token)).

(** [requestDown.iter_content(chunk_size)]: the body cut into pieces of
    [chunk_size] bytes, the last one possibly shorter.  (The body is taken
    as the bytes that [requests] hands out; a content decoding that would
    change the length of a piece is not modelled.)  [fuel] bounds the
    number of pieces; the length of the body is always enough. *)
Fixpoint chunks_of (fuel : nat) (chunk_size : nat) (b : bytes) : list bytes :=
  match fuel with
  | O => []
  | S fuel' =>
      match b with
      | [] => []
      | _ => take chunk_size b :: chunks_of fuel' chunk_size (drop chunk_size b)
      end
  end.

Definition iter_content (chunk_size : nat) (b : bytes) : list bytes :=
  chunks_of (length b) chunk_size b.

(** Line 116: [512 * 1024]. *)
Definition chunk_size : nat := (512 * 1024)%nat.

Definition read_fault (fl : option fault) (i : nat) : option exn :=
  match fl with
  | Some {| f_chunk := j; f_phase := AtRead; f_exn := e |} =>
      if Nat.eqb i j then Some e else None
  | _ => None
  end.

Definition write_fault (fl : option fault) (i : nat) : option (nat * exn) :=
  match fl with
  | Some {| f_chunk := j; f_phase := AtWrite k; f_exn := e |} =>
      if Nat.eqb i j then Some (k, e) else None
  | _ => None
  end.

Definition update_fault (fl : option fault) (i : nat) : option exn :=
  match fl with
  | Some {| f_chunk := j; f_phase := AtUpdate; f_exn := e |} =>
      if Nat.eqb i j then Some e else None
  | _ => None
  end.

(** Lines 116-118: the loop over the chunks, [i] counting them. *)
Fixpoint stream_loop (fl : option fault) (name : str) (i : nat)
         (chunks : list bytes) : M unit :=
  match chunks with
  | [] =>
      match read_fault fl i with
      | Some e => raise e
      | None => ret tt
      end
  | chunk :: rest =>
      match read_fault fl i with
      | Some e => raise e
      | None =>
          match write_fault fl i with
          | Some (k, e) => file_write name (take k chunk);;; raise e
          | None => file_write name chunk
          end;;;
          match update_fault fl i with
          | Some e => raise e
          | None => tqdm_update (length chunk)
          end;;;
          stream_loop fl name (S i) rest
      end
  end.

(** Lines 112-130.  The [with] statement closes the file on every path;
    the bytes written are in the file by the time a handler runs. *)
Definition stream_to_file (env : Environment) (requestDown : response)
           (sourceFileName : str) (sourceSize : Z) (selectedSource : dict)
  : M unit :=
  try_except
    ( let! shown := lift (let? v := dict_get selectedSource (lit "sourceVersion") in
                          format_value v) in
      print (Line (lit "Downloading " ++ sourceFileName ++ lit " (" ++ shown
                   ++ lit "), please do not terminate the script!"));;;
      tqdm_new sourceSize;;;
      open_wb env sourceFileName;;;
      stream_loop (stream_fault env) sourceFileName 0
                  (iter_content chunk_size (body requestDown));;;
      tqdm_close;;;
      print (Line (lit "Done!")) )
    (fun e =>
       match e with
       | KeyboardInterrupt =>
           tqdm_close;;;
           os_remove sourceFileName;;;
           print (Line (lit "Interrupted!"));;;
           exit 130
       | _ =>
           tqdm_close;;;
           os_remove sourceFileName;;;
           print (Line (lit "Error!"));;;
           exit 1
       end).

(** Lines 88-130: the [download] command. *)
Definition download (env : Environment) (dataList : list dict) (version : str)
  : M unit :=
  let! selectedSource := lift (find_source_by_sourcever dataList version) in
  match selectedSource with
  | Some ((_ :: _) as selectedSource) =>
      let! url := lift (let? v := dict_get selectedSource (lit "uploadId") in
                        str_add modalURL v) in
      let! parseModalRequest := session_get env url in
      let! selectedSource := lift (resolve_tokens parseModalRequest selectedSource) in
      let! requestDown := session_post env downSrcURL selectedSource requestHeader in
      let! cd := lift (header_get (headers requestDown) (lit "Content-Disposition")) in
      let! sourceFileName := lift (sourceFileName_of cd) in
      let! cl := lift (header_get (headers requestDown) (lit "Content-Length")) in
      let! sourceSize := lift (py_int cl) in
      stream_to_file env requestDown sourceFileName sourceSize selectedSource
  | _ =>
      print (Line (lit "Invalid source version: " ++ version));;;
      exit 1
  end.

(** Lines 83-84: the numbered list of the [search] command. *)
Fixpoint print_list (dataList : list dict) (index : nat) : M unit :=
  match dataList with
  | [] => ret tt
  | data :: rest =>
      let! m := lift (let? v := dict_get data (lit "sourceModel") in format_value v) in
      let! v := lift (let? v := dict_get data (lit "sourceVersion") in format_value v) in
      print (Line (lit "[" ++ str_of_nat (index + 1) ++ lit "] Model: " ++ m
                   ++ lit " | Version: " ++ v));;;
      print_list rest (S index)
  end.

(** Lines 57-130: the script after argument parsing. *)
Definition main (env : Environment) (args : Namespace) : M unit :=
  let! q := lift (match quote (model args) with
                  | Some q => Ok q
                  | None => Raise UnicodeEncodeError
                  end) in
  let! parseSearchContent := session_get env (searchURL ++ q) in
  let! dataList := lift (extract_dataList parseSearchContent) in
  match command args with
  | Some (Search json) =>
      if json then print (JsonDump dataList) else print_list dataList 0
  | _ => ret tt
  end;;;
  match command args with
  | Some (Download version) => download env dataList version
  | _ => ret tt
  end.

(** How the process ends. *)
Inductive termination :=
| Exit (code : Z)
| Traceback (e : exn).

Definition terminate (r : result unit) : termination :=
  match r with
  | Ok _ => Exit 0
  | Raise (SystemExit c) => Exit c
  | Raise e => Traceback e
  end.

Definition initial_world (files : gmap (list N) (list byte)) : world :=
  {| net := []; stdout := []; fs := files; progressBar := None |}.

(** One run of the script on parsed arguments. *)
Definition run (env : Environment) (args : Namespace)
           (files : gmap (list N) (list byte)) : termination * world :=
  let (r, w) := main env args (initial_world files) in (terminate r, w).

(** ** Vocabulary of the statements *)

(** The dictionary built by lines 70-75. *)
Definition candidate (uploadId sourceVersion sourceModel : str) : dict :=
  [ (lit "uploadId", VStr uploadId);
    (lit "downloadPurpose", VStr (lit "AOP"));
    (lit "sourceVersion", VStr sourceVersion);
    (lit "sourceModel", VStr sourceModel) ].

Definition is_candidate (c : dict) : Prop :=
  exists id v m, c = candidate id v m.

(** The candidate's version is the requested one. *)
Definition has_version (version : str) (c : dict) : Prop :=
  dict_get c (lit "sourceVersion") = Ok (VStr version).

Definition request_url (r : request) : str :=
  match r with
  | GET url => url
  | POST url _ _ => url
  end.

(** The request goes to the given endpoint. *)
Definition targets (endpoint : str) (r : request) : bool :=
  startswith endpoint (request_url r).

(** [row] has the cells that line 66-68 read, and [d] is the dictionary
    built from them. *)
Definition row_candidate (row : node) (d : dict) : Prop :=
  exists td1 td2 td5 a href id,
    find_all (Some (lit "td")) [] row !! 1%nat = Some td1 /\
    find_all (Some (lit "td")) [] row !! 2%nat = Some td2 /\
    find_all (Some (lit "td")) [] row !! 5%nat = Some td5 /\
    find (Some (lit "a")) td5 = Some a /\
    getitem a (lit "href") = Ok (VStr href) /\
    split (lit "'") href !! 1%nat = Some id /\
    d = candidate id (strip (get_text td2)) (strip (get_text td1)).

(** Every [tr] element below the table, whatever its class. *)
Definition all_rows (table : node) : list node :=
  find_all (Some (lit "tr")) [] table.

(** The [tr] elements that line 60 selects: those without a class value. *)
Definition classless_rows (table : node) : list node :=
  find_all (Some (lit "tr")) [(lit "class", [])] table.

(** The file name as the specification words it: second field of the value
    split on [=], without its first character, with the double quotes and
    semicolons at both ends removed. *)
Fixpoint lstrip_chars (cs : list N) (s : str) : str :=
  match s with
  | [] => []
  | c :: s' => if existsb (N.eqb c) cs then lstrip_chars cs s' else s
  end.

Definition strip_chars (cs : list N) (s : str) : str :=
  reverse (lstrip_chars cs (reverse (lstrip_chars cs s))).

Definition spec_sourceFileName (content_disposition : str) : result str :=
  let? field := index (split (lit "=") content_disposition) 1 in
  Ok (strip_chars [34; 59] (slice_from_1 field)).

(** Neither a double quote nor a semicolon. *)
Definition kept_in_name (c : N) : bool := negb (c =? 34) && negb (c =? 59).

(** Where the fault falls inside the run of the loop over [chunks]. *)
Definition strikes (fl : fault) (chunks : list bytes) : Prop :=
  match f_phase fl with
  | AtRead => (f_chunk fl <= length chunks)%nat
  | _ => (f_chunk fl < length chunks)%nat
  end.

(** The reading of the search stage in which every row of the first result
    table yields a candidate. *)
Definition one_candidate_per_row (page : node) : Prop :=
  forall table dataList,
    find_all (Some (lit "table")) [(lit "class", lit "tbl-downList")] page
      !! 0%nat = Some table ->
    extract_dataList page = Ok dataList ->
    length dataList = length (all_rows table).

(** Every candidate extracted from [page] has a non-empty version. *)
Definition versions_nonempty (page : node) : Prop :=
  forall dataList c v,
    extract_dataList page = Ok dataList ->
    c ∈ dataList ->
    dict_get c (lit "sourceVersion") = Ok (VStr v) ->
    v <> [].

(** Line 109 computes what the specification words. *)
Definition filename_as_specified (content_disposition : str) : Prop :=
  sourceFileName_of content_disposition
  = spec_sourceFileName content_disposition.

(** The run gets as far as the streaming stage: the search, the selection,
    the modal page, the three tokens, the download request and its two
    headers all succeed.  [q] is the quoted model, [id] the selected upload
    identifier, [auth] the posted form, [resp] the download response, and
    [name] and [size] are what lines 109-110 read from its headers. *)
Definition reaches_streaming (env : Environment) (args : Namespace)
           (q id : str) (auth : dict) (resp : response) (name : str) (size : Z)
  : Prop :=
  exists version page dataList sel modal cd cl,
    command args = Some (Download version) /\
    quote (model args) = Some q /\
    get_page env (searchURL ++ q) = Ok page /\
    extract_dataList page = Ok dataList /\
    find_source_by_sourcever dataList version = Ok (Some sel) /\
    dict_get sel (lit "uploadId") = Ok (VStr id) /\
    get_page env (modalURL ++ id) = Ok modal /\
    resolve_tokens modal sel = Ok auth /\
    post_response env downSrcURL auth requestHeader = Ok resp /\
    header_get (headers resp) (lit "Content-Disposition") = Ok cd /\
    sourceFileName_of cd = Ok name /\
    header_get (headers resp) (lit "Content-Length") = Ok cl /\
    py_int cl = Ok size.

(** The three entries that lines 99-101 add. *)
Definition resolved_fields (attachIds csrf : pyval) (token : bytes) : dict :=
  [ (lit "attachIds", attachIds);
    (lit "_csrf", csrf);
    (lit "token", VBytes token) ].

(** The world after one chunk went through the loop body. *)
Definition after_chunk (name : str) (chunk : bytes) (b : tqdm) (w : world) : world :=
  set_bar (Some {| total := total b; n := n b + length chunk; closed := closed b |})
          (set_fs (<[name := default [] (fs w !! name) ++ chunk]> (fs w)) w).

(** What a fault leaves behind: the file is still there, nothing else
    changed but the counter of the progress bar. *)
Definition interrupted_from (name : str) (w w' : world) : Prop :=
  net w' = net w /\ stdout w' = stdout w
  /\ is_Some (fs w' !! name)
  /\ (forall other, other <> name -> fs w' !! other = fs w !! other)
  /\ exists b b', progressBar w = Some b /\ progressBar w' = Some b'
                  /\ total b' = total b /\ closed b' = closed b.

(** The line printed when the transfer starts (line 113). *)
Definition downloading_line (name shown : str) : output :=
  Line (lit "Downloading " ++ name ++ lit " (" ++ shown
        ++ lit "), please do not terminate the script!").

(** What the two handlers of lines 121-130 print, and the status they exit
    with. *)
Definition handler_message (e : exn) : str :=
  match e with
  | KeyboardInterrupt => lit "Interrupted!"
  | _ => lit "Error!"
  end.

Definition handler_status (e : exn) : Z :=
  match e with
  | KeyboardInterrupt => 130
  | _ => 1
  end.

(** The computation sends no request. *)
Definition keeps_net {A} (m : M A) : Prop :=
  forall w, net (snd (m w)) = net w.

(** ** Sample pages and answers *)

Definition text (s : string) : node := NavigableString (lit s).

Definition cell (s : string) : node := Tag (lit "td") [] [text s].

Definition link_cell (id : string) : node :=
  Tag (lit "td") []
    [ Tag (lit "a")
        [(lit "href", VStr (lit "javascript:openDownSrcMPop('" ++ lit id ++ lit "');"))]
        [text "Download"] ].

Definition sample_row (m v id : string) : node :=
  Tag (lit "tr") []
    [ cell "1"; cell m; cell v; cell "Source"; cell "2023"; link_cell id ].

Definition header_row : node :=
  Tag (lit "tr") [(lit "class", VList [lit "head"])]
    [ Tag (lit "th") [] [text "Model"] ].

Definition sample_table : node :=
  Tag (lit "table") [(lit "class", VList [lit "tbl-downList"])]
    [ header_row;
      sample_row " SM-A520F " " A520FXXU1 " "111";
      sample_row "SM-A520F" "A520FXXU2" "222";
      sample_row "SM-A520W" "A520FXXU1" "333" ].

Definition sample_search_page : node :=
  Tag (lit "[document]") [] [ sample_table ].

(** A result table whose only data row has an empty version cell. *)
Definition blank_version_page : node :=
  Tag (lit "[document]") []
    [ Tag (lit "table") [(lit "class", VList [lit "tbl-downList"])]
        [ sample_row "SM-A520F" "  " "111" ] ].

(** A page without any result table. *)
Definition empty_page : node := Tag (lit "[document]") [] [].

Definition attr (k v : string) : list N * pyval := (lit k, VStr (lit v)).

Definition sample_modal_page : node :=
  Tag (lit "[document]") []
    [ Tag (lit "input") [attr "type" "checkbox"; attr "id" "checkAll"] [];
      Tag (lit "input") [attr "type" "checkbox"; attr "id" "9001"] [];
      Tag (lit "input")
        [attr "type" "hidden"; attr "name" "_csrf"; attr "value" "c5rf"] [];
      Tag (lit "input")
        [attr "type" "hidden"; attr "id" "token"; attr "value" "t0ken"] [] ].

Definition sample_disposition : str :=
  lit "attachment; filename=" ++ [34] ++ lit "SM-A520F_Opensource.zip" ++ [34].

(** A header value with a semicolon inside the quoted name. *)
Definition inner_semicolon_disposition : str :=
  lit "attachment; filename=" ++ [34] ++ lit "a;b.zip" ++ [34].

Definition sample_response : response :=
  {| headers := [ (lit "Content-Disposition", sample_disposition);
                  (lit "Content-Length", lit "5") ];
     body := [x01; x02; x03; x04; x05] |}.

Definition sample_env (fl : option fault) : Environment :=
  {| get_page := fun url =>
       if startswith searchURL url then Ok sample_search_page
       else Ok sample_modal_page;
     post_response := fun _ _ _ => Ok sample_response;
     open_fault := fun _ => None;
     stream_fault := fl |}.

(** An environment whose search page has no result table. *)
Definition empty_env : Environment :=
  {| get_page := fun _ => Ok empty_page;
     post_response := fun _ _ _ => Raise OtherException;
     open_fault := fun _ => None;
     stream_fault := None |}.

Definition download_args (version : string) : Namespace :=
  {| model := lit "SM-A520F"; command := Some (Download (lit version)) |}.

(** The form posted for the first sample candidate. *)
Definition sample_auth : dict :=
  candidate (lit "111") (lit "A520FXXU1") (lit "SM-A520F")
  ++ resolved_fields (VStr (lit "9001")) (VStr (lit "c5rf"))
                     ["t"; "0"; "k"; "e"; "n"]%byte.

Definition sample_name : str := lit "SM-A520F_Opensource.zip".

(** An interruption after two bytes of the first chunk reached the file. *)
Definition sample_interrupt : fault :=
  {| f_chunk := 0; f_phase := AtWrite 2; f_exn := KeyboardInterrupt |}.

(** A network failure while the end of the body is awaited. *)
Definition sample_failure : fault :=
  {| f_chunk := 1; f_phase := AtRead; f_exn := OtherException |}.

(** ** Further vocabulary *)

(** A code point that UTF-8 can carry: below [0x110000] and no surrogate. *)
Definition encodable (c : N) : bool :=
  (c <? 0xD800) || ((0xDFFF <? c) && (c <? 0x110000)).

(** A character that may stand in the output of [quote]: one it never
    escapes, or the percent sign of an escape. *)
Definition url_char (c : N) : bool := quote_safe c || (c =? 37).

(** A row whose link target has no quoted part. *)
Definition unquoted_link_row : node :=
  Tag (lit "tr") []
    [ cell "1"; cell "SM-A520F"; cell "A520FXXU1"; cell "Source"; cell "2023";
      Tag (lit "td") []
        [ Tag (lit "a") [(lit "href", VStr (lit "/download/111"))]
            [text "Download"] ] ].

(** A model name that holds a lone surrogate code point. *)
Definition surrogate_args : Namespace :=
  {| model := lit "SM-" ++ [0xD800]; command := Some (Search false) |}.

(** The candidate built from an upload identifier, a version and a model. *)
Definition of_fields (t : list N * list N * list N) : list (list N * pyval) :=
  candidate (fst (fst t)) (snd (fst t)) (snd t).

(** Line 84: the line printed for the candidate at position [index]. *)
Definition listing_line (index : nat) (t : list N * list N * list N) : output :=
  Line (lit "[" ++ str_of_nat (index + 1) ++ lit "] Model: " ++ snd t
        ++ lit " | Version: " ++ snd (fst t)).

(** What the [search] command prints for a candidate list. *)
Definition search_output (json : bool) (ts : list (list N * list N * list N))
  : list output :=
  if json then [JsonDump (map of_fields ts)] else imap listing_line ts.

(** A result table in which the second of three rows has a link target
    without a quoted part. *)
Definition broken_row_page : node :=
  Tag (lit "[document]") []
    [ Tag (lit "table") [(lit "class", VList [lit "tbl-downList"])]
        [ sample_row "SM-A520F" "A520FXXU1" "111";
          unquoted_link_row;
          sample_row "SM-A520W" "A520FXXU1" "333" ] ].

Definition search_args (json : bool) : Namespace :=
  {| model := lit "SM-A520F"; command := Some (Search json) |}.

Definition sample_fields : list (list N * list N * list N) :=
  [ (lit "111", lit "A520FXXU1", lit "SM-A520F");
    (lit "222", lit "A520FXXU2", lit "SM-A520F");
    (lit "333", lit "A520FXXU1", lit "SM-A520W") ].

(** The run gets as far as the modal page of the selected candidate
    [sel], whose upload identifier is [id]. *)
Definition reaches_modal (env : Environment) (args : Namespace)
           (q id : list N) (sel : list (list N * pyval)) (modal : node) : Prop :=
  exists version page dataList,
    command args = Some (Download version) /\
    quote (model args) = Some q /\
    get_page env (searchURL ++ q) = Ok page /\
    extract_dataList page = Ok dataList /\
    find_source_by_sourcever dataList version = Ok (Some sel) /\
    dict_get sel (lit "uploadId") = Ok (VStr id) /\
    get_page env (modalURL ++ id) = Ok modal.



(** The three requests of a download, in the order they are sent. *)
Definition download_requests_of (q id : list N) (auth : list (list N * pyval))
  : list request :=
  [ GET (searchURL ++ q); GET (modalURL ++ id);
    POST downSrcURL auth requestHeader ].

(** A modal page with a single check box. *)
Definition one_checkbox_page : node :=
  Tag (lit "[document]") []
    [ Tag (lit "input") [attr "type" "checkbox"; attr "id" "9001"] [];
      Tag (lit "input")
        [attr "type" "hidden"; attr "name" "_csrf"; attr "value" "c5rf"] [];
      Tag (lit "input")
        [attr "type" "hidden"; attr "id" "token"; attr "value" "t0ken"] [] ].

(** The sample portal, with another modal page, download response and
    answer of [open]. *)
Definition portal (modal : node) (resp : response) (open_answer : option exn)
           (fl : option fault) : Environment :=
  {| get_page := fun url =>
       if startswith searchURL url then Ok sample_search_page else Ok modal;
     post_response := fun _ _ _ => Ok resp;
     open_fault := fun _ => open_answer;
     stream_fault := fl |}.


(** A working directory that already holds a file of the sample name, and
    another file. *)
Definition old_files : gmap (list N) (list byte) :=
  <[sample_name := [xff]]> (<[lit "notes.txt" := [x41]]> ∅).

(** A list whose second dictionary has no [sourceVersion] entry. *)
Definition keyless_list : list (list (list N * pyval)) :=
  [ candidate (lit "111") (lit "A520FXXU1") (lit "SM-A520F");
    [(lit "uploadId", VStr (lit "222"))];
    candidate (lit "333") (lit "A520FXXU2") (lit "SM-A520W") ].

(** The requests that the [download] command sends for the selected
    candidate [c] with upload identifier [id]: the modal request and, when
    that page is fetched and the three values are read from it, the one
    post of the form resolved from [c]. *)
Definition requests_for (env : Environment) (id : list N)
           (c : list (list N * pyval)) : list request :=
  GET (modalURL ++ id)
  :: match get_page env (modalURL ++ id) with
     | Ok modal =>
         match resolve_tokens modal c with
         | Ok auth => [POST downSrcURL auth requestHeader]
         | Raise _ => []
         end
     | Raise _ => []
     end.

(** The spellings of the model option's name: [-m], [--model], and the
    abbreviations of [--model], which no other option of the main parser
    shares. *)
Definition model_names : list str :=
  [lit "-m"; lit "--m"; lit "--mo"; lit "--mod"; lit "--mode"; lit "--model"].

(** One occurrence of the model option on the command line, and what it
    stores: the name followed by the value as the next argument, provided
    the parser does not read that argument as an option string; the name,
    [=] and the value in one argument; [-m] with the value attached. *)
Inductive model_option : list str -> value -> Prop :=
| separate_value (o v : str) :
    o ∈ model_names ->
    parse_optional main_parser v = NotOptional ->
    model_option [o; v] (Str v)
| equals_value (o e : str) :
    o ∈ model_names ->
    model_option [o ++ 61 :: e] (get_values [e])
| attached_value (e : str) :
    e <> [] ->
    head e <> Some 61 ->
    model_option [lit "-m" ++ e] (get_values [e]).

(** A command line made of occurrences of the model option and of nothing
    else, with the value that the last one stores. *)
Inductive model_options : list str -> value -> Prop :=
| one_option (g : list str) (v : value) :
    model_option g v -> model_options g v
| more_options (g argv : list str) (v v' : value) :
    model_option g v -> model_options argv v' -> model_options (g ++ argv) v'.

(** A search page from which lines 59-75 build the candidate list: it has
    a result table, and every class-less row of the first one has the
    cells and the link that lines 66-68 read. *)
Definition readable_page (page : node) : Prop :=
  exists table,
    find_all (Some (lit "table")) [(lit "class", lit "tbl-downList")] page
      !! 0%nat = Some table
    /\ Forall (fun row => exists d, row_candidate row d) (classless_rows table).

(** What a run without sub-command leaves behind: the search request, no
    output, the files as they were. *)
Definition after_silent_search (q : str) (files : gmap (list N) (list byte))
  : world :=
  {| net := [GET (searchURL ++ q)]; stdout := []; fs := files;
     progressBar := None |}.

(** The exceptions of the extraction; [SystemExit] is none of them. *)
Definition extraction_error (e : exn) : Prop :=
  e = IndexError \/ e = TypeError \/ e = KeyError \/ e = AttributeError.

(** * Properties *)

(** ** Strings *)

Example quote_example :
  quote (lit "SM-G960F +") = Some (lit "SM-G960F%20%2B").
Proof. reflexivity. Qed.

Example split_example :
  split (lit "'") (lit "javascript:openDownSrcMPop('12345');")
  = [lit "javascript:openDownSrcMPop("; lit "12345"; lit ");"].
Proof. reflexivity. Qed.

Example strip_example : strip (lit "  A520FXXU1 ") = lit "A520FXXU1".
Proof. reflexivity. Qed.

Example encode_example :
  encode_utf8 [0x74; 0xE9; 0x20AC] = Some [x74; xc3; xa9; xe2; x82; xac].
Proof. reflexivity. Qed.

Example py_int_example : py_int (lit " 1_024 ") = Ok 1024%Z.
Proof. reflexivity. Qed.

Example sample_file_name : sourceFileName_of sample_disposition = Ok sample_name.
Proof. reflexivity. Qed.

Example parse_args_example :
  parse_args [lit "-m"; lit "SM-A520F"; lit "download"; lit "-v"; lit "A520FXXU1"]
  = Parsed (download_args "A520FXXU1").
Proof. reflexivity. Qed.

Lemma str_eqb_eq (a b : str) : str_eqb a b = true <-> a = b.
Proof. unfold str_eqb. apply bool_decide_eq_true. Qed.

Lemma str_eqb_refl (a : str) : str_eqb a a = true.
Proof. by apply str_eqb_eq. Qed.

Lemma str_eqb_neq (a b : str) : str_eqb a b = false <-> a <> b.
Proof. unfold str_eqb. apply bool_decide_eq_false. Qed.

Lemma lstrip_head (s : str) (c : N) :
  head (lstrip s) = Some c -> isspace c = false.
Proof.
  induction s as [|x s IH]; simpl; [done|].
  destruct (isspace x) eqn:Hx; [exact IH|].
  simpl. intros [= <-]. exact Hx.
Qed.

(** [lstrip] only removes a prefix. *)
Lemma lstrip_suffix (s : str) : exists ws, s = ws ++ lstrip s.
Proof.
  induction s as [|x s [ws IH]]; simpl.
  - by exists [].
  - destruct (isspace x).
    + exists (x :: ws). simpl. by rewrite <- IH.
    + by exists [].
Qed.

Lemma rstrip_prefix (s : str) : exists ws, s = rstrip s ++ ws.
Proof.
  unfold rstrip. destruct (lstrip_suffix (reverse s)) as [ws H].
  exists (reverse ws).
  rewrite <- reverse_app, <- H. by rewrite reverse_involutive.
Qed.

Lemma rstrip_last (s : str) (c : N) :
  last (rstrip s) = Some c -> isspace c = false.
Proof.
  unfold rstrip. rewrite last_reverse. apply lstrip_head.
Qed.

Lemma strip_head (s : str) (c : N) :
  head (strip s) = Some c -> isspace c = false.
Proof.
  unfold strip. intros H.
  destruct (rstrip_prefix (lstrip s)) as [ws Hws].
  apply (lstrip_head s). rewrite Hws.
  destruct (rstrip (lstrip s)); [done|]. exact H.
Qed.

Lemma strip_last (s : str) (c : N) :
  last (strip s) = Some c -> isspace c = false.
Proof. unfold strip. apply rstrip_last. Qed.

(** Replacing a one-character string by nothing deletes that character. *)
Lemma replace_char_filter (c : N) (s : str) :
  replace [c] [] s = List.filter (fun x => negb (x =? c)) s.
Proof.
  unfold replace. induction s as [|x s IH]; [done|].
  simpl. rewrite (N.eqb_sym c x).
  destruct (x =? c); simpl; by rewrite IH.
Qed.

Lemma filter_filter {A} (f g : A -> bool) (l : list A) :
  List.filter f (List.filter g l) = List.filter (fun x => g x && f x) l.
Proof.
  induction l as [|x l IH]; [done|].
  simpl. destruct (g x); simpl; [destruct (f x)|]; by rewrite IH.
Qed.

(** ** Search page extraction *)

Lemma index_Ok {A} (l : list A) (i : nat) (a : A) :
  index l i = Ok a <-> l !! i = Some a.
Proof.
  unfold index. destruct (l !! i); split; intros H; by inversion H.
Qed.

Lemma parse_row_spec (row : node) (d : dict) :
  parse_row row = Ok d <-> row_candidate row d.
Proof.
  unfold parse_row, row_candidate, rbind, index. split.
  - destruct (find_all (Some (lit "td")) [] row !! 1%nat) as [td1|] eqn:H1; [|done].
    destruct (find_all (Some (lit "td")) [] row !! 2%nat) as [td2|] eqn:H2; [|done].
    destruct (find_all (Some (lit "td")) [] row !! 5%nat) as [td5|] eqn:H5; [|done].
    destruct (find (Some (lit "a")) td5) as [a|] eqn:Ha; [|done].
    destruct (getitem a (lit "href")) as [[href| |]|] eqn:Hh; try done.
    unfold as_str.
    destruct (split (lit "'") href !! 1%nat) as [id|] eqn:Hid; [|done].
    intros [= <-]. exists td1, td2, td5, a, href, id.
    repeat split; assumption || reflexivity.
  - intros (td1 & td2 & td5 & a & href & id & -> & -> & -> & -> & -> & Hid & ->).
    unfold as_str. by rewrite Hid.
Qed.

Lemma row_loop_spec (rows : list node) (acc ds : list dict) :
  row_loop rows acc = Ok ds <->
  exists new, ds = acc ++ new /\ Forall2 row_candidate rows new.
Proof.
  revert acc ds. induction rows as [|row rows IH]; intros acc ds; simpl.
  - split.
    + intros [= <-]. exists []. split; [by rewrite app_nil_r | constructor].
    + intros (new & -> & H). inversion H. by rewrite app_nil_r.
  - unfold rbind. split.
    + destruct (parse_row row) as [d|] eqn:Hd; [|done].
      intros H. apply IH in H as (new & -> & Hnew).
      exists (d :: new). split; [by rewrite <- app_assoc|].
      constructor; [by apply parse_row_spec | done].
    + intros (new & -> & H). inversion H as [|? d ? new' Hd Hnew]; subst.
      apply parse_row_spec in Hd. rewrite Hd. apply IH.
      exists new'. split; [by rewrite <- app_assoc | done].
Qed.

(** The candidate list of a page: one dictionary per class-less row of the
    first result table, in page order. *)
Lemma extract_dataList_spec (page : node) (dataList : list dict) :
  extract_dataList page = Ok dataList <->
  exists table,
    find_all (Some (lit "table")) [(lit "class", lit "tbl-downList")] page
      !! 0%nat = Some table /\
    Forall2 row_candidate (classless_rows table) dataList.
Proof.
  unfold extract_dataList, rowSearchTable, rbind, index, classless_rows. split.
  - destruct (_ !! 0%nat) as [table|]; [|done].
    intros H. apply row_loop_spec in H as (new & -> & H). by exists table.
  - intros (table & -> & H). apply row_loop_spec. by exists dataList.
Qed.

Lemma row_candidate_is_candidate (row : node) (d : dict) :
  row_candidate row d -> is_candidate d.
Proof.
  intros (td1 & td2 & td5 & a & href & id & _ & _ & _ & _ & _ & _ & ->).
  by eexists _, _, _.
Qed.

Lemma extract_dataList_candidates (page : node) (dataList : list dict) :
  extract_dataList page = Ok dataList -> Forall is_candidate dataList.
Proof.
  intros H. apply extract_dataList_spec in H as (table & _ & H).
  induction H as [|row d rows ds Hd _ IH]; constructor; [|done].
  by apply (row_candidate_is_candidate row).
Qed.

Lemma candidate_version (id v m : str) :
  dict_get (candidate id v m) (lit "sourceVersion") = Ok (VStr v).
Proof. reflexivity. Qed.

Lemma candidate_uploadId (id v m : str) :
  dict_get (candidate id v m) (lit "uploadId") = Ok (VStr id).
Proof. reflexivity. Qed.

(** ** Selection *)

Lemma version_is_candidate (version id v m : str) :
  version_is version (candidate id v m) = Ok (str_eqb v version).
Proof. reflexivity. Qed.

Lemma has_version_candidate (version id v m : str) :
  has_version version (candidate id v m) <-> v = version.
Proof.
  unfold has_version. rewrite candidate_version.
  split; [by intros [= ->] | by intros ->].
Qed.

Lemma find_source_none (l : list dict) (version : str) :
  Forall is_candidate l ->
  (forall c, c ∈ l -> ~ has_version version c) ->
  find_source_by_sourcever l version = Ok None.
Proof.
  induction 1 as [|c l (id & v & m & ->) _ IH]; intros Hno; [done|].
  cbn [find_source_by_sourcever]. rewrite version_is_candidate.
  cbn [rbind].
  destruct (str_eqb v version) eqn:E.
  - apply str_eqb_eq in E. exfalso.
    apply (Hno (candidate id v m)); [left | by apply has_version_candidate].
  - apply IH. intros c' Hc'. apply Hno. by right.
Qed.

Lemma find_source_first (l1 l2 : list dict) (c : dict) (version : str) :
  Forall is_candidate l1 ->
  (forall c', c' ∈ l1 -> ~ has_version version c') ->
  is_candidate c -> has_version version c ->
  find_source_by_sourcever (l1 ++ c :: l2) version = Ok (Some c).
Proof.
  intros Hl1 Hno (id & v & m & ->) Hc.
  apply has_version_candidate in Hc as ->.
  induction Hl1 as [|c' l1 (id' & v' & m' & ->) _ IH];
    cbn [find_source_by_sourcever app]; rewrite version_is_candidate;
    cbn [rbind].
  - by rewrite str_eqb_refl.
  -
    destruct (str_eqb v' version) eqn:E.
    + apply str_eqb_eq in E. exfalso.
      apply (Hno (candidate id' v' m')); [left | by apply has_version_candidate].
    + apply IH. intros c'' Hc''. apply Hno. by right.
Qed.

(** ** Running the script: one step at a time *)

Lemma bind_lift_Ok {A B} (r : result A) (a : A) (f : A -> M B) (w : world) :
  r = Ok a -> bind (lift r) f w = f a w.
Proof. by intros ->. Qed.

Lemma bind_lift_Raise {A B} (r : result A) (e : exn) (f : A -> M B) (w : world) :
  r = Raise e -> bind (lift r) f w = (Raise e, w).
Proof. by intros ->. Qed.

Lemma bind_session_get {B} (env : Environment) (url : str) (f : node -> M B)
      (w : world) :
  bind (session_get env url) f w =
  match get_page env url with
  | Ok page => f page (sent (GET url) w)
  | Raise e => (Raise e, sent (GET url) w)
  end.
Proof.
  unfold session_get, bind, send, lift, sent. simpl.
  by destruct (get_page env url).
Qed.

Lemma bind_session_post {B} (env : Environment) (url : str) (data : dict)
      (hdrs : list (str * str)) (f : response -> M B) (w : world) :
  bind (session_post env url data hdrs) f w =
  match post_response env url data hdrs with
  | Ok resp => f resp (sent (POST url data hdrs) w)
  | Raise e => (Raise e, sent (POST url data hdrs) w)
  end.
Proof.
  unfold session_post, bind, send, lift, sent. simpl.
  by destruct (post_response env url data hdrs).
Qed.

Lemma bind_print {B} (o : output) (f : unit -> M B) (w : world) :
  bind (print o) f w = f tt (printed o w).
Proof. reflexivity. Qed.

(** The search stage: after the page is fetched and the table extracted,
    the script dispatches on the command with the request recorded. *)
Lemma main_after_search (env : Environment) (args : Namespace) (w : world)
      (q : str) (page : node) (dataList : list dict) :
  quote (model args) = Some q ->
  get_page env (searchURL ++ q) = Ok page ->
  extract_dataList page = Ok dataList ->
  main env args w =
  match command args with
  | Some (Search json) =>
      bind (if json then print (JsonDump dataList) else print_list dataList 0)
           (fun _ => ret tt) (sent (GET (searchURL ++ q)) w)
  | Some (Download version) =>
      download env dataList version (sent (GET (searchURL ++ q)) w)
  | None => (Ok tt, sent (GET (searchURL ++ q)) w)
  end.
Proof.
  intros Hq Hpage Hdata. unfold main.
  rewrite (bind_lift_Ok _ q) by (by rewrite Hq).
  rewrite bind_session_get, Hpage.
  rewrite (bind_lift_Ok _ dataList) by done.
  by destruct (command args) as [[json|version]|].
Qed.

Lemma download_no_match (env : Environment) (dataList : list dict)
      (version : str) (w : world) :
  find_source_by_sourcever dataList version = Ok None ->
  download env dataList version w =
  (Raise (SystemExit 1),
   printed (Line (lit "Invalid source version: " ++ version)) w).
Proof.
  intros H. unfold download. by rewrite (bind_lift_Ok _ None).
Qed.

Lemma search_url_is_not_modal (q : str) :
  targets modalURL (GET (searchURL ++ q)) = false.
Proof. reflexivity. Qed.

Lemma search_url_is_not_download (q : str) :
  targets downSrcURL (GET (searchURL ++ q)) = false.
Proof. reflexivity. Qed.

Lemma sample_search_dataList :
  extract_dataList sample_search_page =
  Ok [ candidate (lit "111") (lit "A520FXXU1") (lit "SM-A520F");
       candidate (lit "222") (lit "A520FXXU2") (lit "SM-A520F");
       candidate (lit "333") (lit "A520FXXU1") (lit "SM-A520W") ].
Proof. reflexivity. Qed.

(** ** Unknown version *)

(** C1.  When the search succeeded and no candidate of the list carries the
    requested version, the [download] command prints the diagnostic and
    exits with status 1; the only request of the whole run is the search
    request, so neither the modal endpoint nor the download endpoint is
    contacted. *)
Theorem unknown_version_exits_before_authorization
        (env : Environment) (args : Namespace) (files : gmap (list N) (list byte))
        (version q : str) (page : node) (dataList : list dict) :
  command args = Some (Download version) ->
  quote (model args) = Some q ->
  get_page env (searchURL ++ q) = Ok page ->
  extract_dataList page = Ok dataList ->
  Forall (fun c => ~ has_version version c) dataList ->
  run env args files =
    (Exit 1,
     {| net := [GET (searchURL ++ q)];
        stdout := [Line (lit "Invalid source version: " ++ version)];
        fs := files;
        progressBar := None |})
  /\ Forall (fun r => targets modalURL r = false /\ targets downSrcURL r = false)
            (net (snd (run env args files))).
Proof.
  intros Hcmd Hq Hpage Hdata Hno.
  assert (Hrun : run env args files =
    (Exit 1,
     {| net := [GET (searchURL ++ q)];
        stdout := [Line (lit "Invalid source version: " ++ version)];
        fs := files;
        progressBar := None |})).
  { unfold run. rewrite (main_after_search env args _ q page dataList) by done.
    rewrite Hcmd, download_no_match; [done|].
    apply find_source_none.
    - by apply (extract_dataList_candidates page).
    - intros c Hc. rewrite Forall_forall in Hno. by apply Hno. }
  split; [exact Hrun|]. rewrite Hrun. cbn [snd net].
  constructor; [|constructor].
  split; [apply search_url_is_not_modal | apply search_url_is_not_download].
Qed.

Lemma unknown_version_witness :
  run (sample_env None) (download_args "A520FXXU9") ∅ =
    (Exit 1,
     {| net := [GET (searchURL ++ lit "SM-A520F")];
        stdout := [Line (lit "Invalid source version: " ++ lit "A520FXXU9")];
        fs := ∅;
        progressBar := None |})
  /\ Forall (fun r => targets modalURL r = false /\ targets downSrcURL r = false)
            (net (snd (run (sample_env None) (download_args "A520FXXU9") ∅))).
Proof.
  apply (unknown_version_exits_before_authorization
           (sample_env None) (download_args "A520FXXU9") ∅
           (lit "A520FXXU9") (lit "SM-A520F") sample_search_page
           [ candidate (lit "111") (lit "A520FXXU1") (lit "SM-A520F");
             candidate (lit "222") (lit "A520FXXU2") (lit "SM-A520F");
             candidate (lit "333") (lit "A520FXXU1") (lit "SM-A520W") ]).
  - reflexivity.
  - reflexivity.
  - reflexivity.
  - reflexivity.
  - repeat constructor; vm_compute; discriminate.
Defined.

(** ** The command line *)

Lemma consume_cons (p : parser) (s : str) (rest : list str) (st : parsing) :
  consume p (s :: rest) st =
  if str_eqb s (lit "--") then
    if has_subparsers p then ErrorExit
    else Finished (add_extras (s :: rest) st) None
  else
    match parse_optional p s with
    | NotOptional =>
        if has_subparsers p then Finished st (Some (s, rest))
        else consume p rest (add_extras [s] st)
    | Unknown => consume p rest (add_extras [s] st)
    | AmbiguousOption => ErrorExit
    | Known a o e =>
        match consume_optional p a o e (next_argument p rest) with
        | None => ErrorExit
        | Some (actions, consumed) =>
            match take_actions actions st with
            | None => HelpPrinted
            | Some st' =>
                if consumed then
                  match rest with
                  | _ :: rest' => consume p rest' st'
                  | [] => ErrorExit
                  end
                else consume p rest st'
            end
        end
    end.
Proof. reflexivity. Qed.

Lemma ambiguous_argument_cons (p : parser) (s : str) (rest : list str) :
  ambiguous_argument p (s :: rest) =
  if str_eqb s (lit "--") then false
  else match parse_optional p s with
       | AmbiguousOption => true
       | _ => ambiguous_argument p rest
       end.
Proof. reflexivity. Qed.

(** The model option's names are read as the model option. *)
Lemma model_name_is_store (o : str) :
  o ∈ model_names ->
  str_eqb o (lit "--") = false
  /\ exists o', parse_optional main_parser o = Known StoreAction o' None.
Proof.
  unfold model_names. intros H.
  repeat (apply elem_of_cons in H as [-> | H]);
    [split; [reflexivity | eexists; vm_compute; reflexivity] .. |].
  by apply elem_of_nil in H.
Qed.

Lemma model_name_equals_is_store (o e : str) :
  o ∈ model_names ->
  str_eqb (o ++ 61 :: e) (lit "--") = false
  /\ exists o', parse_optional main_parser (o ++ 61 :: e)
                = Known StoreAction o' (Some e).
Proof.
  unfold model_names. intros H.
  repeat (apply elem_of_cons in H as [-> | H]);
    [split; [reflexivity | eexists; vm_compute; reflexivity] .. |].
  by apply elem_of_nil in H.
Qed.

Lemma not_optional_is_not_dashes (p : parser) (v : str) :
  parse_optional main_parser v = NotOptional -> str_eqb v (lit "--") = false.
Proof.
  intros H. apply str_eqb_neq. intros ->. vm_compute in H. discriminate.
Qed.

Lemma split_once_Some (c : N) (s a b : str) :
  split_once c s = Some (a, b) -> s = a ++ c :: b /\ (c ∉ a).
Proof.
  revert a. induction s as [|x s IH]; intros a; cbn [split_once]; [done|].
  destruct (x =? c) eqn:E.
  - apply N.eqb_eq in E as ->. intros [= <- <-]. split; [done|]. apply not_elem_of_nil.
  - apply N.eqb_neq in E.
    destruct (split_once c s) as [[a' b']|]; [|done].
    intros [= <- <-]. destruct (IH a' eq_refl) as [-> Hn]. split; [done|].
    apply not_elem_of_cons. split; [congruence | done].
Qed.

Lemma split_once_None (c : N) (s : str) :
  split_once c s = None -> c ∉ s.
Proof.
  induction s as [|x s IH]; cbn [split_once]; [intros _; apply not_elem_of_nil|].
  destruct (x =? c) eqn:E; [done|]. apply N.eqb_neq in E.
  destruct (split_once c s) as [[a' b']|]; [done|].
  intros _. apply not_elem_of_cons. split; [congruence | by apply IH].
Qed.

(** [-m] with the value attached. *)
Lemma attached_value_is_store (e : str) :
  e <> [] -> head e <> Some 61 ->
  str_eqb (lit "-m" ++ e) (lit "--") = false
  /\ parse_optional main_parser (lit "-m" ++ e)
     = Known StoreAction (lit "-m") (Some e).
Proof.
  destruct e as [|x e]; [done|]. intros _ Hx. split; [reflexivity|].
  assert ((x =? 61) = false) as Hx' by (apply N.eqb_neq; cbn in Hx; congruence).
  unfold parse_optional, lit. cbn - [split_once get_option_tuples negative_number].
  cbn [split_once]. change (45 =? 61) with false. change (109 =? 61) with false.
  cbv iota. rewrite Hx'.
  destruct (split_once 61 e) as [[a b]|]; reflexivity.
Qed.

Lemma with_explicit_arg_store (p : parser) (o e : str) (next : option str) :
  with_explicit_arg p StoreAction o e next = Some ([(StoreAction, [e])], false).
Proof. by destruct e. Qed.

(** One occurrence of the model option is consumed as a whole and stores
    its value. *)
Lemma model_option_consumed (g : list str) (v : value) (rest : list str)
      (st : parsing) :
  model_option g v ->
  consume main_parser (g ++ rest) st =
  consume main_parser rest
          {| stored := Some v; json := json st; extras := extras st |}.
Proof.
  intros [o x Ho Hx | o e Ho | e He1 He2]; cbn [app]; rewrite consume_cons.
  - destruct (model_name_is_store o Ho) as [-> [o' ->]].
    unfold next_argument.
    rewrite (not_optional_is_not_dashes main_parser x Hx), Hx.
    cbn [consume_optional without_explicit_arg takes_argument take_actions
         get_values].
    by rewrite (not_optional_is_not_dashes main_parser x Hx).
  - destruct (model_name_equals_is_store o e Ho) as [-> [o' ->]].
    cbn [consume_optional]. by rewrite with_explicit_arg_store.
  - change (lit "-m" ++ e ++ []) with (lit "-m" ++ e).
    destruct (attached_value_is_store e He1 He2) as [-> ->].
    cbn [consume_optional]. by rewrite with_explicit_arg_store.
Qed.

Lemma model_option_not_ambiguous (g : list str) (v : value) (rest : list str) :
  model_option g v ->
  ambiguous_argument main_parser (g ++ rest) = ambiguous_argument main_parser rest.
Proof.
  intros [o x Ho Hx | o e Ho | e He1 He2]; cbn [app];
    rewrite ambiguous_argument_cons.
  - destruct (model_name_is_store o Ho) as [-> [o' ->]].
    rewrite ambiguous_argument_cons.
    by rewrite (not_optional_is_not_dashes main_parser x Hx), Hx.
  - by destruct (model_name_equals_is_store o e Ho) as [-> [o' ->]].
  - by destruct (attached_value_is_store e He1 He2) as [-> ->].
Qed.

Lemma model_option_nonempty (g : list str) (v : value) :
  model_option g v -> g <> [].
Proof. by intros []. Qed.

Lemma model_options_consumed (argv : list str) (v : value) (st : parsing) :
  model_options argv v ->
  consume main_parser argv st =
  Finished {| stored := Some v; json := json st; extras := extras st |} None.
Proof.
  intros H. revert st. induction H as [g v H | g argv v v' H _ IH]; intros st.
  - rewrite <- (app_nil_r g). by rewrite (model_option_consumed g v [] st H).
  - rewrite (model_option_consumed g v argv st H). by rewrite IH.
Qed.

Lemma model_options_not_ambiguous (argv : list str) (v : value) :
  model_options argv v -> ambiguous_argument main_parser argv = false.
Proof.
  induction 1 as [g v H | g argv v v' H _ IH].
  - rewrite <- (app_nil_r g). by rewrite (model_option_not_ambiguous g v [] H).
  - by rewrite (model_option_not_ambiguous g v argv H).
Qed.

(** A command line made of model options is accepted, with the last value
    as the model and no command. *)
Lemma model_options_parsed (argv : list str) (m : str) :
  model_options argv (Str m) ->
  parse_args argv = Parsed {| model := m; command := None |}.
Proof.
  intros H. unfold parse_args, parse_known_args.
  rewrite (model_options_not_ambiguous argv _ H).
  by rewrite (model_options_consumed argv _ _ H).
Qed.

Lemma lookup_action_main (s : str) (a : action) :
  lookup_action (option_string_actions main_parser) s = Some a ->
  (s = lit "-h" \/ s = lit "--help") /\ a = HelpAction
  \/ (s = lit "-m" \/ s = lit "--model") /\ a = StoreAction.
Proof.
  cbn [lookup_action main_parser option_string_actions].
  repeat match goal with
         | |- context [str_eqb ?o s] =>
             let E := fresh "E" in
             destruct (str_eqb o s) eqn:E;
             [apply str_eqb_eq in E as <-; intros [= <-]; auto | clear E]
         end.
  done.
Qed.

Lemma startswith_model (p : str) :
  startswith p (lit "--model") = true ->
  p = [] \/ p = lit "-" \/ p = lit "--" \/ p ∈ model_names.
Proof.
  unfold model_names. rewrite !elem_of_cons.
  intros H.
  repeat (destruct p as [|? p]; [by auto 12|];
          cbn [startswith lit map list_ascii_of_string N_of_ascii] in H;
          try discriminate H;
          let E := fresh "E" in
          apply andb_true_iff in H as [E H]; apply N.eqb_eq in E as ->).
Qed.

(** The option tuples of an argument that starts with two dashes. *)
Lemma get_option_tuples_long (s2 : str) :
  get_option_tuples (option_string_actions main_parser) (45 :: 45 :: s2) =
  let prefix_arg :=
    match split_once 61 s2 with
    | Some (o, e) => (45 :: 45 :: o, Some e)
    | None => (45 :: 45 :: s2, None)
    end in
  (if startswith (fst prefix_arg) (lit "--help")
   then [(HelpAction, lit "--help", snd prefix_arg)] else [])
  ++ (if startswith (fst prefix_arg) (lit "--model")
      then [(StoreAction, lit "--model", snd prefix_arg)] else []).
Proof.
  unfold get_option_tuples. change (45 =? 45) with true. cbv iota.
  cbn [split_once]. change (45 =? 61) with false. cbv iota.
  destruct (split_once 61 s2) as [[o e]|]; cbn [fst snd];
    cbn [option_string_actions main_parser omap list_omap fst snd].
  - change (startswith (45 :: 45 :: o) (lit "-h")) with false.
    change (startswith (45 :: 45 :: o) (lit "-m")) with false.
    cbv iota.
    by destruct (startswith (45 :: 45 :: o) (lit "--help")),
                (startswith (45 :: 45 :: o) (lit "--model")).
  - change (startswith (45 :: 45 :: s2) (lit "-h")) with false.
    change (startswith (45 :: 45 :: s2) (lit "-m")) with false.
    cbv iota.
    by destruct (startswith (45 :: 45 :: s2) (lit "--help")),
                (startswith (45 :: 45 :: s2) (lit "--model")).
Qed.

(** [startswith] on a literal, decided by the second character. *)
Ltac by_startswith H :=
  match goal with
  | |- startswith (?c0 :: ?c1 :: ?s) ?l = false =>
      let l' := eval vm_compute in l in
      change l with l'; cbn [startswith]; rewrite H; reflexivity
  end.

(** The option tuples of an argument that starts with one dash. *)
Lemma get_option_tuples_short (c1 : N) (s2 : str) :
  c1 <> 45 ->
  get_option_tuples (option_string_actions main_parser) (45 :: c1 :: s2) =
  if c1 =? 104 then [(HelpAction, lit "-h", Some s2)]
  else if c1 =? 109 then [(StoreAction, lit "-m", Some s2)]
  else [].
Proof.
  intros Hc. unfold get_option_tuples.
  destruct (c1 =? 45) eqn:E; [by apply N.eqb_eq in E|]. clear E.
  cbn [option_string_actions main_parser omap list_omap fst snd take drop].
  rewrite ?take_0, ?drop_0.
  assert (str_eqb (lit "--help") [45; c1] = false) as ->
      by (by apply str_eqb_neq).
  assert (str_eqb (lit "--model") [45; c1] = false) as ->
      by (by apply str_eqb_neq).
  assert (startswith (45 :: c1 :: s2) (lit "--help") = false) as ->.
  { apply N.eqb_neq in Hc. by_startswith Hc. }
  assert (startswith (45 :: c1 :: s2) (lit "--model") = false) as ->.
  { apply N.eqb_neq in Hc. by_startswith Hc. }
  destruct (c1 =? 104) eqn:Eh.
  - apply N.eqb_eq in Eh as ->. reflexivity.
  - assert (str_eqb (lit "-h") [45; c1] = false) as ->.
    { apply str_eqb_neq. intros [= <-]. done. }
    assert (startswith (45 :: c1 :: s2) (lit "-h") = false) as ->.
    { by_startswith Eh. }
    destruct (c1 =? 109) eqn:Em.
    + apply N.eqb_eq in Em as ->. reflexivity.
    + assert (str_eqb (lit "-m") [45; c1] = false) as ->.
      { apply str_eqb_neq. intros [= <-]. done. }
      assert (startswith (45 :: c1 :: s2) (lit "-m") = false) as ->.
      { by_startswith Em. }
      reflexivity.
Qed.

(** What the main parser reads as an option: a help option, or the model
    option in one of its spellings. *)
Lemma parse_optional_main_known (s : str) (a : action) (o : str)
      (e : option str) :
  parse_optional main_parser s = Known a o e ->
  a = HelpAction
  \/ a = StoreAction
     /\ (e = None /\ s ∈ model_names
         \/ exists e', e = Some e' /\ model_option [s] (get_values [e'])).
Proof.
  assert (forall x : str, x = lit "-m" \/ x = lit "--model" -> x ∈ model_names)
    as Hnames.
  { unfold model_names. intros x [-> | ->]; rewrite !elem_of_cons; auto 10. }
  unfold parse_optional. destruct s as [|c s1]; [done|].
  destruct (c =? 45) eqn:Ec; cbn [negb]; [|done]. apply N.eqb_eq in Ec as ->.
  destruct (lookup_action _ (45 :: s1)) as [a0|] eqn:Hl.
  { intros [= <- <- <-].
    apply lookup_action_main in Hl as [[_ ->] | [H ->]]; [by left|].
    right. split; [done|]. left. split; [done|]. by apply Hnames. }
  destruct s1 as [|c1 s2]; [done|].
  change (Nat.eqb (length (45 :: c1 :: s2)) 1) with false. cbv iota.
  destruct (split_once 61 (45 :: c1 :: s2)) as [[o' e']|] eqn:Hs.
  - pose proof (split_once_Some _ _ _ _ Hs) as [Heq _].
    destruct (lookup_action _ o') as [a0|] eqn:Hl'.
    { intros [= <- <- <-].
      apply lookup_action_main in Hl' as [[_ ->] | [H ->]]; [by left|].
      right. split; [done|]. right. exists e'. split; [done|].
      rewrite Heq. apply equals_value. by apply Hnames. }
    destruct (N.eq_dec c1 45) as [-> | Hc1].
    + rewrite get_option_tuples_long.
      cbn [split_once] in Hs.
      change (45 =? 61) with false in Hs. cbv iota in Hs.
      destruct (split_once 61 s2) as [[o2 e2]|]; [|done].
      injection Hs as <- <-. cbn [fst snd].
      destruct (startswith (45 :: 45 :: o2) (lit "--help")) eqn:Hh,
               (startswith (45 :: 45 :: o2) (lit "--model")) eqn:Hm;
        cbn [app]; try done.
      * intros [= <- <- <-]. by left.
      * intros [= <- <- <-]. right. split; [done|]. right.
        exists e2. split; [done|]. rewrite Heq. apply equals_value.
        apply startswith_model in Hm as [? | [? | [H | H]]]; try done.
        by rewrite H in Hh.
      * by repeat case_match.
    + rewrite (get_option_tuples_short c1 s2 Hc1).
      destruct (c1 =? 104) eqn:Eh; [intros [= <- <- <-]; by left|].
      destruct (c1 =? 109) eqn:Em.
      * apply N.eqb_eq in Em as ->. intros [= <- <- <-].
        right. split; [done|]. right. exists s2. split; [done|].
        apply (attached_value s2).
        -- intros ->. discriminate Hl.
        -- intros Hhead. destruct s2 as [|x s2]; [done|].
           injection Hhead as ->.
           cbn [split_once] in Hs.
           change (45 =? 61) with false in Hs.
           change (109 =? 61) with false in Hs.
           change (61 =? 61) with true in Hs. cbv iota in Hs.
           injection Hs as <- <-. discriminate Hl'.
      * by repeat case_match.
  - destruct (N.eq_dec c1 45) as [-> | Hc1].
    + rewrite get_option_tuples_long.
      cbn [split_once] in Hs.
      change (45 =? 61) with false in Hs. cbv iota in Hs.
      destruct (split_once 61 s2) as [[o2 e2]|]; [done|]. cbn [fst snd].
      destruct (startswith (45 :: 45 :: s2) (lit "--help")) eqn:Hh,
               (startswith (45 :: 45 :: s2) (lit "--model")) eqn:Hm;
        cbn [app]; try done.
      * intros [= <- <- <-]. by left.
      * intros [= <- <- <-]. right. split; [done|]. left. split; [done|].
        apply startswith_model in Hm as [? | [? | [H | H]]]; try done.
        by rewrite H in Hh.
      * by repeat case_match.
    + rewrite (get_option_tuples_short c1 s2 Hc1).
      destruct (c1 =? 104) eqn:Eh; [intros [= <- <- <-]; by left|].
      destruct (c1 =? 109) eqn:Em.
      * apply N.eqb_eq in Em as ->. intros [= <- <- <-].
        right. split; [done|]. right. exists s2. split; [done|].
        apply (attached_value s2).
        -- intros ->. discriminate Hl.
        -- intros Hhead. destruct s2 as [|x s2]; [done|].
           injection Hhead as ->.
           cbn [split_once] in Hs.
           change (45 =? 61) with false in Hs.
           change (109 =? 61) with false in Hs.
           change (61 =? 61) with true in Hs. cbv iota in Hs. done.
      * by repeat case_match.
Qed.

Lemma take_actions_extras (actions : list (action * list str))
      (st st' : parsing) :
  take_actions actions st = Some st' -> extras st' = extras st.
Proof.
  revert st. induction actions as [|[[] args] actions IH]; intros st;
    cbn [take_actions].
  - by intros [= <-].
  - done.
  - intros H. by rewrite (IH _ H).
  - intros H. by rewrite (IH _ H).
Qed.

(** Unrecognised arguments are never forgotten. *)
Lemma consume_extras (p : parser) (n : nat) :
  forall (arg_strings : list str) (st st' : parsing)
         (c : option (str * list str)),
    (length arg_strings <= n)%nat ->
    consume p arg_strings st = Finished st' c ->
    exists l, extras st' = extras st ++ l.
Proof.
  induction n as [|n IH]; intros [|s rest] st st' c Hn;
    cbn [length] in Hn; try lia.
  - intros [= <- <-]. exists []. by rewrite app_nil_r.
  - intros [= <- <-]. exists []. by rewrite app_nil_r.
  - rewrite consume_cons.
    assert (forall st1 st2 c', consume p rest st1 = Finished st2 c' ->
              exists l, extras st2 = extras st1 ++ l) as IHrest.
    { intros st1 st2 c'. apply IH. lia. }
    destruct (str_eqb s (lit "--")).
    { destruct (has_subparsers p); [done|]. intros [= <- <-].
      by exists (s :: rest). }
    destruct (parse_optional p s) as [|a o e| |].
    + destruct (has_subparsers p).
      * intros [= <- <-]. exists []. by rewrite app_nil_r.
      * intros H. apply IHrest in H as [l ->]. exists ([s] ++ l).
        cbn [add_extras extras]. by rewrite app_assoc.
    + destruct (consume_optional p a o e _) as [[actions consumed]|]; [|done].
      destruct (take_actions actions st) as [st1|] eqn:Ht; [|done].
      apply take_actions_extras in Ht.
      destruct consumed.
      * destruct rest as [|v rest']; [done|].
        intros H. apply IH in H as [l Hl]; [|cbn [length] in *; lia].
        exists l. by rewrite Hl, Ht.
      * intros H. apply IHrest in H as [l Hl]. exists l. by rewrite Hl, Ht.
    + intros H. apply IHrest in H as [l ->]. exists ([s] ++ l).
      cbn [add_extras extras]. by rewrite app_assoc.
    + done.
Qed.

(** A help action, once reached, is the first to run. *)
Lemma help_runs_first (p : parser) (o : str) (e next : option str)
      (actions : list (action * list str)) (consumed : bool) (st : parsing) :
  consume_optional p HelpAction o e next = Some (actions, consumed) ->
  take_actions actions st = None.
Proof.
  destruct e as [[|c rest]|]; cbn [consume_optional with_explicit_arg
                                    without_explicit_arg takes_argument].
  - done.
  - destruct (match o !! 1%nat with Some c1 => c1 =? 45 | None => true end);
      [done|].
    destruct (lookup_action _ _) as [a'|]; [|done].
    destruct (match rest with [] => _ | _ :: _ => _ end) as [[acts c']|];
      [|done].
    by intros [= <- <-].
  - by intros [= <- <-].
Qed.

Lemma next_argument_Some (p : parser) (rest : list str) (v : str) :
  next_argument p rest = Some v ->
  exists rest', rest = v :: rest' /\ parse_optional p v = NotOptional
                /\ str_eqb v (lit "--") = false.
Proof.
  destruct rest as [|x rest']; [done|]. unfold next_argument.
  destruct (str_eqb x (lit "--")) eqn:E; [done|].
  destruct (parse_optional p x) eqn:Hx; try done.
  intros [= <-]. by exists rest'.
Qed.

(** What the main parser finishes without a sub-command and without
    unrecognised arguments is made of model options. *)
Lemma consume_main_finished (n : nat) :
  forall (argv : list str) (st st' : parsing),
    (length argv <= n)%nat ->
    consume main_parser argv st = Finished st' None ->
    extras st' = [] ->
    argv = [] /\ st' = st
    \/ exists v, model_options argv v
                 /\ st' = {| stored := Some v; json := json st;
                             extras := extras st |}.
Proof.
  induction n as [|n IH]; intros [|s rest] st st' Hn;
    cbn [length] in Hn; try lia.
  - intros [= <-] _. by left.
  - intros [= <-] _. by left.
  - rewrite consume_cons. intros H Hex. right.
    destruct (str_eqb s (lit "--")); [done|].
    destruct (parse_optional main_parser s) as [|a o e| |] eqn:Hs; try done.
    + destruct (consume_optional _ a o e _) as [[actions consumed]|] eqn:Hc;
        [|done].
      apply parse_optional_main_known in Hs
        as [-> | [-> [[-> Hname] | [e' [-> Hopt]]]]].
      * by rewrite (help_runs_first _ _ _ _ _ _ st Hc) in H.
      * cbn [consume_optional without_explicit_arg takes_argument] in Hc.
        destruct (next_argument main_parser rest) as [v|] eqn:Hnext; [|done].
        injection Hc as <- <-.
        apply next_argument_Some in Hnext as (rest' & -> & Hv & Hd).
        cbn [take_actions get_values] in H. rewrite Hd in H.
        apply IH in H as [[-> ->] | (v' & Hm & ->)];
          [| |cbn [length] in Hn; lia|done].
        -- exists (Str v). split; [|done].
           apply one_option. by apply separate_value.
        -- exists v'. split; [|done].
           apply (more_options [s; v] rest' (Str v) v'); [|done].
           by apply separate_value.
      * cbn [consume_optional] in Hc. rewrite with_explicit_arg_store in Hc.
        injection Hc as <- <-. cbn [take_actions] in H.
        apply IH in H as [[-> ->] | (v' & Hm & ->)]; [| |lia|done].
        -- exists (get_values [e']). split; [|done]. by apply one_option.
        -- exists v'. split; [|done].
           by apply (more_options [s] rest (get_values [e']) v').
    + apply (consume_extras main_parser n) in H as [l Hl]; [|lia].
      rewrite Hex in Hl. cbn [add_extras extras] in Hl.
      by destruct (extras st).
Qed.

(** The command lines that the parser accepts without a sub-command are
    those made of model options. *)
Lemma parsed_without_command (argv : list str) (m : str) :
  parse_args argv = Parsed {| model := m; command := None |} ->
  model_options argv (Str m).
Proof.
  unfold parse_args, parse_known_args.
  destruct (ambiguous_argument main_parser argv); [done|].
  destruct (consume main_parser argv _) as [st [[name rest]|]| |] eqn:Hc;
    try done.
  - unfold finish, namespace_of. intros H.
    repeat case_match; simplify_eq.
  - unfold finish. destruct (stored st) as [v|] eqn:Hv; [|done].
    rewrite app_nil_r. destruct (extras st) eqn:Hex; [|done].
    unfold namespace_of. destruct v as [x|]; [|done]. intros [= ->].
    apply (consume_main_finished (length argv)) in Hc
      as [[-> ->] | (v' & Hm & ->)]; [done| |lia|done].
    cbn [stored] in Hv. by injection Hv as ->.
Qed.

(** ** No sub-command *)

(** Without a sub-command the table extraction still runs: its failure ends
    the run. *)
Lemma no_subcommand_extraction_failure
      (env : Environment) (m q : str) (files : gmap (list N) (list byte))
      (page : node) (e : exn) :
  quote m = Some q ->
  get_page env (searchURL ++ q) = Ok page ->
  extract_dataList page = Raise e ->
  run env {| model := m; command := None |} files =
    (terminate (Raise e),
     {| net := [GET (searchURL ++ q)]; stdout := []; fs := files;
        progressBar := None |}).
Proof.
  intros Hq Hpage Hdata. unfold run, main. cbn [model].
  rewrite (bind_lift_Ok _ q) by (by rewrite Hq).
  rewrite bind_session_get, Hpage.
  by rewrite (bind_lift_Raise _ e).
Qed.

Lemma dict_get_raises (d : list (list N * pyval)) (k : str) (e : exn) :
  dict_get d k = Raise e -> e = KeyError.
Proof.
  induction d as [|[k' v] d IH]; cbn [dict_get]; [by intros [= <-]|].
  by destruct (str_eqb k' k).
Qed.

Lemma parse_row_raises (row : node) (e : exn) :
  parse_row row = Raise e -> extraction_error e.
Proof.
  unfold parse_row, index, rbind, extraction_error.
  destruct (_ !! 1%nat); [|intros [= <-]; auto].
  destruct (_ !! 2%nat); [|intros [= <-]; auto].
  destruct (_ !! 5%nat) as [td5|]; [|intros [= <-]; auto].
  destruct (find _ td5) as [a|]; [|intros [= <-]; auto].
  destruct (getitem a (lit "href")) as [href|e'] eqn:Hh.
  - destruct href; cbn [as_str]; try (intros [= <-]; auto).
    by destruct (_ !! 1%nat); [|intros [= <-]; auto].
  - intros [= <-]. destruct a; cbn [getitem] in Hh.
    + apply dict_get_raises in Hh as ->. auto.
    + injection Hh as <-. auto.
Qed.

Lemma row_loop_raises (rows : list node) (acc : list dict) (e : exn) :
  row_loop rows acc = Raise e -> extraction_error e.
Proof.
  revert acc. induction rows as [|row rows IH]; intros acc;
    cbn [row_loop]; unfold rbind; [done|].
  destruct (parse_row row) as [d|e'] eqn:Hd.
  - apply IH.
  - intros [= <-]. by apply parse_row_raises in Hd.
Qed.

Lemma extract_dataList_raises (page : node) (e : exn) :
  extract_dataList page = Raise e -> extraction_error e.
Proof.
  unfold extract_dataList, rowSearchTable, index, rbind.
  destruct (_ !! 0%nat); [apply row_loop_raises|].
  intros [= <-]. by left.
Qed.

Lemma readable_rows (rows : list node) :
  Forall (fun row => exists d, row_candidate row d) rows <->
  exists ds, Forall2 row_candidate rows ds.
Proof.
  split.
  - induction 1 as [|row rows [d Hd] _ [ds IH]]; [by exists []|].
    exists (d :: ds). by constructor.
  - intros [ds H]. induction H as [|row d rows ds Hd _ IH]; constructor;
      [by exists d | done].
Qed.

(** The pages on which the extraction succeeds. *)
Lemma readable_page_spec (page : node) :
  readable_page page <-> exists dataList, extract_dataList page = Ok dataList.
Proof.
  unfold readable_page. split.
  - intros (table & Ht & Hrows). apply readable_rows in Hrows as [ds Hds].
    exists ds. apply extract_dataList_spec. by exists table.
  - intros (ds & H). apply extract_dataList_spec in H as (table & Ht & Hds).
    exists table. split; [done|]. apply readable_rows. by exists ds.
Qed.

(** A run without sub-command, whatever the page. *)
Lemma no_subcommand_run (env : Environment) (m q : str)
      (files : gmap (list N) (list byte)) (page : node) :
  quote m = Some q ->
  get_page env (searchURL ++ q) = Ok page ->
  run env {| model := m; command := None |} files =
    (match extract_dataList page with
     | Ok _ => Exit 0
     | Raise e => terminate (Raise e)
     end, after_silent_search q files).
Proof.
  intros Hq Hpage. destruct (extract_dataList page) as [dataList|e] eqn:Hd.
  - unfold run.
    by rewrite (main_after_search env _ _ q page dataList).
  - by apply no_subcommand_extraction_failure with (page := page).
Qed.

(** C10.  A command line made only of the model option, in any spelling
    that the parser admits, is accepted with [command] unset, and these are
    all the command lines accepted without a sub-command.  On a readable
    search page the run then sends the search request, prints nothing and
    exits with status 0.  The table extraction is carried out: whatever
    page the portal answers, the run exits with status 0 exactly when the
    page is readable, and a page without result table ends it with an
    [IndexError]. *)
Theorem no_subcommand_runs_search_silently
        (env : Environment) (m q : str) (files : gmap (list N) (list byte))
        (page : node) :
  quote m = Some q ->
  get_page env (searchURL ++ q) = Ok page ->
  readable_page page ->
  (forall argv,
      model_options argv (Str m) <->
      parse_args argv = Parsed {| model := m; command := None |})
  /\ run env {| model := m; command := None |} files =
       (Exit 0, after_silent_search q files)
  /\ (forall env' page',
         get_page env' (searchURL ++ q) = Ok page' ->
         snd (run env' {| model := m; command := None |} files)
           = after_silent_search q files
         /\ (fst (run env' {| model := m; command := None |} files) = Exit 0
             <-> readable_page page')
         /\ (find_all (Some (lit "table")) [(lit "class", lit "tbl-downList")]
                      page' = [] ->
             fst (run env' {| model := m; command := None |} files)
               = Traceback IndexError)).
Proof.
  intros Hq Hpage Hread. split; [|split].
  - intros argv. split; [apply model_options_parsed | apply parsed_without_command].
  - rewrite (no_subcommand_run env m q files page Hq Hpage).
    apply readable_page_spec in Hread as [dataList ->]. done.
  - intros env' page' Hpage'.
    rewrite (no_subcommand_run env' m q files page' Hq Hpage'). cbn [fst snd].
    split; [done|]. split; [split|].
    + destruct (extract_dataList page') as [dataList|e] eqn:Hd.
      * intros _. apply readable_page_spec. by exists dataList.
      * intros He. apply extract_dataList_raises in Hd
          as [-> | [-> | [-> | ->]]]; discriminate He.
    + intros Hr. by apply readable_page_spec in Hr as [dataList ->].
    + intros Hnone. unfold extract_dataList, rowSearchTable. by rewrite Hnone.
Qed.

Lemma no_subcommand_witness :
  parse_args [lit "-m"; lit "SM-A520F"]
    = Parsed {| model := lit "SM-A520F"; command := None |}
  /\ parse_args [lit "--model=SM-A520F"]
    = Parsed {| model := lit "SM-A520F"; command := None |}
  /\ parse_args [lit "-mSM-A520F"]
    = Parsed {| model := lit "SM-A520F"; command := None |}
  /\ parse_args [lit "--mod"; lit "SM-A520F"]
    = Parsed {| model := lit "SM-A520F"; command := None |}
  /\ run (sample_env None) {| model := lit "SM-A520F"; command := None |} ∅
     = (Exit 0, after_silent_search (lit "SM-A520F") ∅)
  /\ fst (run empty_env {| model := lit "SM-A520F"; command := None |} ∅)
     = Traceback IndexError.
Proof.
  assert (readable_page sample_search_page) as Hread.
  { exists sample_table. split; [reflexivity|].
    repeat constructor; eexists; apply parse_row_spec; reflexivity. }
  destruct (no_subcommand_runs_search_silently
              (sample_env None) (lit "SM-A520F") (lit "SM-A520F") ∅
              sample_search_page eq_refl eq_refl Hread)
    as (Hparse & Hrun & Hany).
  destruct (Hany empty_env empty_page eq_refl) as (_ & _ & Hnone).
  split; [|split; [|split; [|split; [|split]]]].
  - apply Hparse, one_option.
    apply (separate_value (lit "-m") (lit "SM-A520F")); [|reflexivity].
    apply list_elem_of_In. cbn. tauto.
  - apply Hparse, one_option.
    apply (equals_value (lit "--model") (lit "SM-A520F")).
    apply list_elem_of_In. cbn. tauto.
  - apply Hparse, one_option.
    by apply (attached_value (lit "SM-A520F")).
  - apply Hparse, one_option.
    apply (separate_value (lit "--mod") (lit "SM-A520F")); [|reflexivity].
    apply list_elem_of_In. cbn. tauto.
  - exact Hrun.
  - by apply Hnone.
Defined.

(** ** The candidate list *)

Lemma filter_sublist {A} (f g : A -> bool) (l : list A) :
  (forall x, f x = true -> g x = true) ->
  sublist (List.filter f l) (List.filter g l).
Proof.
  intros Hfg. induction l as [|x l IH]; simpl; [constructor|].
  destruct (f x) eqn:Hf.
  - rewrite (Hfg x Hf). by constructor.
  - destruct (g x); [by constructor | done].
Qed.

(** The rows that line 60 selects are rows of the table, in page order. *)
Lemma classless_rows_sublist (table : node) :
  sublist (classless_rows table) (all_rows table).
Proof.
  unfold classless_rows, all_rows, find_all. apply filter_sublist.
  intros [nm attrs cs|s0]; [|done]. unfold tag_matches.
  intros H. apply andb_true_iff in H as [H _]. by rewrite H.
Qed.

(** C6 as stated does not hold: the header row of the sample table carries
    a class and yields no candidate, so the table has four rows and the
    list three candidates. *)
Lemma search_skips_rows_with_class :
  ~ one_candidate_per_row sample_search_page.
Proof.
  intros H.
  specialize (H sample_table _ eq_refl sample_search_dataList).
  vm_compute in H. discriminate H.
Qed.

(** C6, amended.  The search stage takes the first table of class
    [tbl-downList]; for its rows without a class value, in page order, it
    produces one candidate each: [sourceModel] and [sourceVersion] are the
    stripped texts of the second and third cell, [uploadId] is the second
    field of the sixth cell's first link target split on the single quote,
    and [downloadPurpose] is the constant [AOP]. *)
Theorem search_candidates_follow_classless_rows (page table : node) :
  find_all (Some (lit "table")) [(lit "class", lit "tbl-downList")] page
    !! 0%nat = Some table ->
  Forall (fun row => exists d, row_candidate row d) (classless_rows table) ->
  sublist (classless_rows table) (all_rows table)
  /\ exists dataList,
       extract_dataList page = Ok dataList
       /\ Forall2 row_candidate (classless_rows table) dataList
       /\ Forall (fun d => dict_get d (lit "downloadPurpose") = Ok (VStr (lit "AOP")))
                 dataList.
Proof.
  intros Htable Hrows. split; [apply classless_rows_sublist|].
  assert (exists dataList, Forall2 row_candidate (classless_rows table) dataList)
    as [dataList Hall].
  { induction Hrows as [|row rows [d Hd] _ [ds IH]].
    - exists []. constructor.
    - exists (d :: ds). by constructor. }
  exists dataList. split; [|split; [done|]].
  - apply extract_dataList_spec. by exists table.
  - clear Hrows. induction Hall as [|row d rows ds Hd _ IH]; [constructor|].
    constructor; [|done].
    destruct (row_candidate_is_candidate row d Hd) as (id & v & m & ->).
    reflexivity.
Qed.

Lemma search_candidates_witness :
  sublist (classless_rows sample_table) (all_rows sample_table)
  /\ exists dataList,
       extract_dataList sample_search_page = Ok dataList
       /\ Forall2 row_candidate (classless_rows sample_table) dataList
       /\ Forall (fun d => dict_get d (lit "downloadPurpose") = Ok (VStr (lit "AOP")))
                 dataList.
Proof.
  apply (search_candidates_follow_classless_rows sample_search_page sample_table).
  - reflexivity.
  - assert (H : classless_rows sample_table =
                [ sample_row " SM-A520F " " A520FXXU1 " "111";
                  sample_row "SM-A520F" "A520FXXU2" "222";
                  sample_row "SM-A520W" "A520FXXU1" "333" ]) by reflexivity.
    rewrite H.
    repeat (constructor; [eexists; apply parse_row_spec; reflexivity|]).
    constructor.
Defined.

(** C8 as stated does not hold: a row whose version cell holds only blanks
    yields a candidate with the empty version. *)
Lemma blank_version_cell_gives_empty_version :
  ~ versions_nonempty blank_version_page.
Proof.
  intros H.
  apply (H [candidate (lit "111") [] (lit "SM-A520F")]
           (candidate (lit "111") [] (lit "SM-A520F")) []);
    [reflexivity | by left | reflexivity | reflexivity].
Qed.

(** C8, amended.  Each candidate's [sourceVersion] is the stripped text of
    the third cell of its row: the candidate at position [i] of the list
    comes from the class-less row at position [i] of the first result
    table, and its version is the text of that row's third cell without
    the white space at both ends; a string, possibly empty, that neither
    starts nor ends with white space. *)
Theorem candidate_versions_are_stripped
        (page : node) (dataList : list dict) (i : nat) (c : dict) :
  extract_dataList page = Ok dataList ->
  dataList !! i = Some c ->
  exists table row td2,
    find_all (Some (lit "table")) [(lit "class", lit "tbl-downList")] page
      !! 0%nat = Some table
    /\ classless_rows table !! i = Some row
    /\ find_all (Some (lit "td")) [] row !! 2%nat = Some td2
    /\ dict_get c (lit "sourceVersion") = Ok (VStr (strip (get_text td2)))
    /\ (forall x, head (strip (get_text td2)) = Some x -> isspace x = false)
    /\ (forall x, last (strip (get_text td2)) = Some x -> isspace x = false).
Proof.
  intros Hdata Hc.
  apply extract_dataList_spec in Hdata as (table & Htable & Hall).
  destruct (Forall2_lookup_r _ _ _ _ _ Hall Hc) as (row & Hrow & Hd).
  destruct Hd as (td1 & td2 & td5 & a & href & id & _ & H2 & _ & _ & _ & _ & ->).
  exists table, row, td2.
  repeat split; [done | done | done | apply strip_head | apply strip_last].
Qed.

Lemma candidate_versions_witness :
  exists table row td2,
    find_all (Some (lit "table")) [(lit "class", lit "tbl-downList")]
             blank_version_page !! 0%nat = Some table
    /\ classless_rows table !! 0%nat = Some row
    /\ find_all (Some (lit "td")) [] row !! 2%nat = Some td2
    /\ dict_get (candidate (lit "111") [] (lit "SM-A520F")) (lit "sourceVersion")
       = Ok (VStr (strip (get_text td2)))
    /\ (forall x, head (strip (get_text td2)) = Some x -> isspace x = false)
    /\ (forall x, last (strip (get_text td2)) = Some x -> isspace x = false).
Proof.
  apply (candidate_versions_are_stripped
           blank_version_page
           [candidate (lit "111") [] (lit "SM-A520F")] 0).
  - reflexivity.
  - reflexivity.
Defined.

(** ** The file name *)

(** C7 as stated does not hold: a semicolon inside the quoted name is
    removed by line 109, while stripping only the ends keeps it. *)
Lemma inner_semicolon_is_removed :
  ~ filename_as_specified inner_semicolon_disposition.
Proof.
  unfold filename_as_specified. vm_compute. discriminate.
Qed.

(** C7, amended.  The file name is the second field of the header value
    split on [=], without its first character and with every double quote
    and every semicolon removed. *)
Theorem filename_drops_quotes_and_semicolons (content_disposition field : str) :
  split (lit "=") content_disposition !! 1%nat = Some field ->
  sourceFileName_of content_disposition
  = Ok (List.filter kept_in_name (drop 1 field)).
Proof.
  intros H. unfold sourceFileName_of, index, rbind. rewrite H.
  unfold slice_from_1.
  change (lit ";") with [59].
  by rewrite !replace_char_filter, filter_filter.
Qed.

Lemma filename_witness :
  sourceFileName_of sample_disposition
  = Ok (List.filter kept_in_name
          (drop 1 ([34] ++ lit "SM-A520F_Opensource.zip" ++ [34]))).
Proof.
  apply (filename_drops_quotes_and_semicolons
           sample_disposition ([34] ++ lit "SM-A520F_Opensource.zip" ++ [34])).
  reflexivity.
Defined.

(** ** Token resolution *)

Lemma resolve_tokens_candidate
      (page : node) (id v m : str) (box field elem : node)
      (attachIds csrf : pyval) (token : str) (token_bytes : bytes) :
  find_all (Some (lit "input")) [(lit "type", lit "checkbox")] page
    !! 1%nat = Some box ->
  getitem box (lit "id") = Ok attachIds ->
  find_all None [(lit "name", lit "_csrf")] page !! 0%nat = Some field ->
  getitem field (lit "value") = Ok csrf ->
  find_all None [(lit "id", lit "token")] page !! 0%nat = Some elem ->
  getitem elem (lit "value") = Ok (VStr token) ->
  encode_utf8 token = Some token_bytes ->
  resolve_tokens page (candidate id v m)
  = Ok (candidate id v m ++ resolved_fields attachIds csrf token_bytes).
Proof.
  intros Hbox Hid Hfield Hcsrf Helem Hvalue Henc.
  unfold resolve_tokens, index, rbind.
  rewrite Hbox, Hid, Hfield, Hcsrf, Helem, Hvalue.
  unfold as_str. rewrite Henc. reflexivity.
Qed.

(** Whatever the modal page, a successful resolution only appends the
    three entries to the candidate. *)
Lemma resolve_tokens_appends (page : node) (id v m : str) (auth : dict) :
  resolve_tokens page (candidate id v m) = Ok auth ->
  exists attachIds csrf token_bytes,
    auth = candidate id v m ++ resolved_fields attachIds csrf token_bytes.
Proof.
  unfold resolve_tokens, index, rbind.
  destruct (_ !! 1%nat) as [box|]; [|done].
  destruct (getitem box (lit "id")) as [attachIds|]; [|done].
  destruct (_ !! 0%nat) as [field|]; [|done].
  destruct (getitem field (lit "value")) as [csrf|]; [|done].
  destruct (_ !! 0%nat) as [elem|]; [|done].
  destruct (getitem elem (lit "value")) as [[token| |]|]; try done.
  unfold as_str.
  destruct (encode_utf8 token) as [token_bytes|]; [|done].
  intros [= <-]. by exists attachIds, csrf, token_bytes.
Qed.

(** C5.  For a candidate and a modal page that has the three elements, the
    resolver stores the [id] of the second check-box input under
    [attachIds], the [value] of the first element named [_csrf] under
    [_csrf] and the UTF-8 bytes of the [value] of the first element with
    identifier [token] under [token]; the result is the candidate's four
    entries, unchanged and in place, followed by these three. *)
Theorem resolver_adds_three_fields
        (page : node) (c : dict) (box field elem : node)
        (attachIds csrf : pyval) (token : str) (token_bytes : bytes) :
  is_candidate c ->
  find_all (Some (lit "input")) [(lit "type", lit "checkbox")] page
    !! 1%nat = Some box ->
  getitem box (lit "id") = Ok attachIds ->
  find_all None [(lit "name", lit "_csrf")] page !! 0%nat = Some field ->
  getitem field (lit "value") = Ok csrf ->
  find_all None [(lit "id", lit "token")] page !! 0%nat = Some elem ->
  getitem elem (lit "value") = Ok (VStr token) ->
  encode_utf8 token = Some token_bytes ->
  exists auth,
    resolve_tokens page c = Ok auth
    /\ auth = c ++ resolved_fields attachIds csrf token_bytes
    /\ keys auth = [ lit "uploadId"; lit "downloadPurpose"; lit "sourceVersion";
                     lit "sourceModel"; lit "attachIds"; lit "_csrf"; lit "token" ]
    /\ (forall k, k ∈ keys c -> dict_get auth k = dict_get c k).
Proof.
  intros (id & v & m & ->) Hbox Hid Hfield Hcsrf Helem Hvalue Henc.
  eexists. split; [by eapply resolve_tokens_candidate|].
  split; [done|]. split; [done|].
  intros k Hk. cbn [keys candidate map fst] in Hk.
  repeat (apply elem_of_cons in Hk as [-> | Hk]; [reflexivity|]).
  by apply elem_of_nil in Hk.
Qed.

Lemma resolver_witness :
  exists auth,
    resolve_tokens sample_modal_page
                   (candidate (lit "111") (lit "A520FXXU1") (lit "SM-A520F"))
    = Ok auth
    /\ auth = candidate (lit "111") (lit "A520FXXU1") (lit "SM-A520F")
              ++ resolved_fields (VStr (lit "9001")) (VStr (lit "c5rf"))
                                 ["t"; "0"; "k"; "e"; "n"]%byte
    /\ keys auth = [ lit "uploadId"; lit "downloadPurpose"; lit "sourceVersion";
                     lit "sourceModel"; lit "attachIds"; lit "_csrf"; lit "token" ]
    /\ (forall k,
          k ∈ keys (candidate (lit "111") (lit "A520FXXU1") (lit "SM-A520F")) ->
          dict_get auth k
          = dict_get (candidate (lit "111") (lit "A520FXXU1") (lit "SM-A520F")) k).
Proof.
  apply (resolver_adds_three_fields
           sample_modal_page
           (candidate (lit "111") (lit "A520FXXU1") (lit "SM-A520F"))
           (Tag (lit "input") [attr "type" "checkbox"; attr "id" "9001"] [])
           (Tag (lit "input")
              [attr "type" "hidden"; attr "name" "_csrf"; attr "value" "c5rf"] [])
           (Tag (lit "input")
              [attr "type" "hidden"; attr "id" "token"; attr "value" "t0ken"] [])
           (VStr (lit "9001")) (VStr (lit "c5rf")) (lit "t0ken")).
  - by exists (lit "111"), (lit "A520FXXU1"), (lit "SM-A520F").
  - reflexivity.
  - reflexivity.
  - reflexivity.
  - reflexivity.
  - reflexivity.
  - reflexivity.
  - reflexivity.
Defined.

(** ** Chunks *)

Lemma chunk_size_pos : (0 < chunk_size)%nat.
Proof. unfold chunk_size. lia. Qed.

Lemma chunks_of_concat (cs : nat) (fuel : nat) (b : bytes) :
  (0 < cs)%nat -> (length b <= fuel)%nat ->
  concat (chunks_of fuel cs b) = b.
Proof.
  intros Hcs. revert b. induction fuel as [|fuel IH]; intros b Hlen.
  - destruct b; [done | simpl in Hlen; lia].
  - destruct b as [|x b]; [done|].
    cbn [chunks_of concat]. rewrite IH.
    + apply take_drop.
    + rewrite length_drop. simpl in *. lia.
Qed.

Lemma chunks_of_lookup (cs : nat) (fuel : nat) (b : bytes) (i : nat) (c : bytes) :
  (0 < cs)%nat ->
  chunks_of fuel cs b !! i = Some c ->
  c = take cs (drop (i * cs) b) /\ c <> [].
Proof.
  intros Hcs. revert b i. induction fuel as [|fuel IH]; intros b i H; [done|].
  destruct b as [|x b]; [done|]. cbn [chunks_of] in H.
  destruct i as [|i].
  - injection H as <-. split; [done|].
    destruct cs; [lia | done].
  - cbn [lookup list_lookup] in H. apply IH in H as [-> Hne].
    split; [|done]. by rewrite drop_drop.
Qed.

(** The chunks of a body: chunk [i] is the bytes from offset
    [i * chunk_size], at most [chunk_size] of them and at least one; the
    chunks together are the body. *)
Lemma iter_content_spec (cs : nat) (b : bytes) :
  (0 < cs)%nat ->
  concat (iter_content cs b) = b
  /\ forall i c, iter_content cs b !! i = Some c ->
       c = take cs (drop (i * cs) b)
       /\ length c = Nat.min cs (length b - i * cs)
       /\ (0 < length c)%nat.
Proof.
  intros Hcs. unfold iter_content. split.
  - by apply chunks_of_concat.
  - intros i c H. apply chunks_of_lookup in H as [-> Hne]; [|done].
    split; [done|]. split.
    + by rewrite length_take, length_drop.
    + destruct (take cs (drop (i * cs) b)); [done | simpl; lia].
Qed.

(** ** The streaming loop *)

Lemma read_fault_other (f : fault) (i : nat) :
  f_chunk f <> i -> read_fault (Some f) i = None.
Proof.
  destruct f as [j [|k|] e]; simpl; intros H; try done.
  destruct (Nat.eqb_spec i j); [congruence | done].
Qed.

Lemma write_fault_other (f : fault) (i : nat) :
  f_chunk f <> i -> write_fault (Some f) i = None.
Proof.
  destruct f as [j [|k|] e]; simpl; intros H; try done.
  destruct (Nat.eqb_spec i j); [congruence | done].
Qed.

Lemma update_fault_other (f : fault) (i : nat) :
  f_chunk f <> i -> update_fault (Some f) i = None.
Proof.
  destruct f as [j [|k|] e]; simpl; intros H; try done.
  destruct (Nat.eqb_spec i j); [congruence | done].
Qed.

Lemma stream_loop_step (fl : option fault) (name : str) (i : nat)
      (chunk : bytes) (rest : list bytes) (w : world) (b : tqdm) :
  read_fault fl i = None -> write_fault fl i = None -> update_fault fl i = None ->
  progressBar w = Some b ->
  stream_loop fl name i (chunk :: rest) w
  = stream_loop fl name (S i) rest (after_chunk name chunk b w).
Proof.
  intros Hr Hw Hu Hb. cbn [stream_loop]. rewrite Hr, Hw, Hu.
  unfold bind, file_write, tqdm_update. cbn [progressBar set_fs].
  by rewrite Hb.
Qed.

(** Without a fault the loop appends every chunk to the file and adds its
    length to the progress bar. *)
Lemma stream_loop_clean (name : str) (chunks : list bytes) :
  forall (i : nat) (w : world) (b : tqdm) (content : bytes),
    progressBar w = Some b ->
    fs w !! name = Some content ->
    stream_loop None name i chunks w
    = (Ok tt,
       set_bar (Some {| total := total b;
                        n := n b + length (concat chunks);
                        closed := closed b |})
               (set_fs (<[name := content ++ concat chunks]> (fs w)) w)).
Proof.
  induction chunks as [|chunk rest IH]; intros i w b content Hb Hf.
  - cbn [stream_loop read_fault concat]. unfold ret. f_equal.
    destruct w as [nt out files bar]. destruct b as [t k c].
    unfold set_bar, set_fs. simpl in *. subst bar.
    rewrite app_nil_r, Nat.add_0_r. f_equal. symmetry. by apply insert_id.
  - rewrite (stream_loop_step None name i chunk rest w b) by done.
    rewrite (IH (S i) _ {| total := total b; n := n b + length chunk;
                           closed := closed b |} (content ++ chunk)).
    + f_equal. unfold set_bar, set_fs, after_chunk. cbn.
      rewrite insert_insert_eq, length_app, <- app_assoc, Nat.add_assoc.
      done.
    + reflexivity.
    + unfold after_chunk. cbn. rewrite lookup_insert_eq. by rewrite Hf.
Qed.

Lemma interrupted_from_after_chunk (name : str) (chunk : bytes) (b : tqdm)
      (w w' : world) :
  progressBar w = Some b ->
  interrupted_from name (after_chunk name chunk b w) w' ->
  interrupted_from name w w'.
Proof.
  intros Hb (Hn & Ho & Hs & Hother & b1 & b' & Hb1 & Hb' & Ht & Hc).
  unfold after_chunk in *. cbn in *. injection Hb1 as <-.
  repeat split; try done.
  - intros other Hne. rewrite Hother by done. by rewrite lookup_insert_ne.
  - by exists b, b'.
Qed.

(** A fault that falls inside the loop ends it with the fault's exception. *)
Lemma stream_loop_fault (f : fault) (name : str) (chunks : list bytes) :
  forall (i : nat) (w : world) (b : tqdm) (content : bytes),
    progressBar w = Some b ->
    fs w !! name = Some content ->
    (i <= f_chunk f)%nat ->
    match f_phase f with
    | AtRead => (f_chunk f <= i + length chunks)%nat
    | _ => (f_chunk f < i + length chunks)%nat
    end ->
    exists w',
      stream_loop (Some f) name i chunks w = (Raise (f_exn f), w')
      /\ interrupted_from name w w'.
Proof.
  induction chunks as [|chunk rest IH]; intros i w b content Hb Hf Hi Hin.
  - destruct f as [j p e]. cbn in *.
    destruct p; [|lia|lia].
    assert (i = j) as -> by lia. rewrite Nat.eqb_refl.
    exists w. split; [done|].
    repeat split; try done. by exists b, b.
  - destruct (decide (f_chunk f = i)) as [Heq|Hne].
    + destruct f as [j p e]. cbn in *. subst j. rewrite Nat.eqb_refl.
      destruct p as [|k|]; cbn.
      * exists w. split; [done|]. repeat split; try done. by exists b, b.
      * eexists. split; [reflexivity|]. unfold interrupted_from, set_fs. cbn.
        repeat split; try done.
        -- by rewrite lookup_insert_eq.
        -- intros other Hne. by rewrite lookup_insert_ne.
        -- by exists b, b.
      * eexists. split; [reflexivity|]. unfold interrupted_from, set_fs. cbn.
        repeat split; try done.
        -- by rewrite lookup_insert_eq.
        -- intros other Hne. by rewrite lookup_insert_ne.
        -- by exists b, b.
    + rewrite (stream_loop_step (Some f) name i chunk rest w b);
        [| by apply read_fault_other | by apply write_fault_other
         | by apply update_fault_other | done].
      destruct (IH (S i) (after_chunk name chunk b w)
                   {| total := total b; n := n b + length chunk;
                      closed := closed b |}
                   (content ++ chunk)) as (w' & Hrun & Hinv).
      * reflexivity.
      * unfold after_chunk. cbn. rewrite lookup_insert_eq. by rewrite Hf.
      * lia.
      * cbn [length] in Hin. destruct (f_phase f); lia.
      * exists w'. split; [done|].
        by apply (interrupted_from_after_chunk name chunk b).
Qed.

(** ** The streaming stage *)

Lemma bind_Ok {A B} (m : M A) (f : A -> M B) (w w' : world) (a : A) :
  m w = (Ok a, w') -> bind m f w = f a w'.
Proof. unfold bind. by intros ->. Qed.

Lemma bind_Raise {A B} (m : M A) (f : A -> M B) (w w' : world) (e : exn) :
  m w = (Raise e, w') -> bind m f w = (Raise e, w').
Proof. unfold bind. by intros ->. Qed.

Lemma bind_tqdm_new {B} (t : Z) (f : unit -> M B) (w : world) :
  bind (tqdm_new t) f w
  = f tt (set_bar (Some {| total := t; n := 0; closed := false |}) w).
Proof. reflexivity. Qed.

Lemma bind_open_wb {B} (env : Environment) (name : str) (f : unit -> M B)
      (w : world) :
  open_fault env name = None ->
  bind (open_wb env name) f w = f tt (set_fs (<[name := []]> (fs w)) w).
Proof. intros H. unfold bind, open_wb. by rewrite H. Qed.

(** Both handlers: close the bar, remove the file, print, exit. *)
Lemma cleanup_runs (name msg : str) (code : Z) (w : world) (b : tqdm)
      (content : bytes) :
  progressBar w = Some b ->
  fs w !! name = Some content ->
  bind tqdm_close
       (fun _ => bind (os_remove name)
                      (fun _ => bind (print (Line msg)) (fun _ => @exit unit code))) w
  = (Raise (SystemExit code),
     printed (Line msg)
       (set_fs (delete name (fs w))
          (set_bar (Some {| total := total b; n := n b; closed := true |}) w))).
Proof.
  intros Hb Hf. unfold bind, tqdm_close, os_remove. rewrite Hb. cbn.
  by rewrite Hf.
Qed.

(** The streaming stage without a fault. *)
Lemma stream_to_file_clean (env : Environment) (resp : response)
      (name : str) (size : Z) (auth : dict) (shown : str) (w : world) :
  dict_get auth (lit "sourceVersion") = Ok (VStr shown) ->
  open_fault env name = None ->
  stream_fault env = None ->
  stream_to_file env resp name size auth w
  = (Ok tt,
     {| net := net w;
        stdout := stdout w ++ [downloading_line name shown; Line (lit "Done!")];
        fs := <[name := body resp]> (fs w);
        progressBar := Some {| total := size; n := length (body resp);
                               closed := true |} |}).
Proof.
  intros Hv Hopen Hfault. unfold stream_to_file, try_except.
  rewrite (bind_lift_Ok _ shown) by (by rewrite Hv).
  rewrite bind_print, bind_tqdm_new, bind_open_wb by done.
  rewrite Hfault.
  pose proof (iter_content_spec chunk_size (body resp) chunk_size_pos)
    as [Hconcat _].
  set (chunks := iter_content chunk_size (body resp)) in *.
  clearbody chunks.
  set (w0 := set_fs _ _).
  assert (Hloop := stream_loop_clean name chunks 0 w0
                     {| total := size; n := 0; closed := false |} []).
  rewrite (bind_Ok _ _ _ _ _ (Hloop eq_refl
             ltac:(unfold w0, set_fs; cbn; by rewrite lookup_insert_eq))).
  rewrite Hconcat. unfold w0, bind, tqdm_close, print, printed, set_bar, set_fs.
  cbn -[lit]. rewrite insert_insert_eq, <- app_assoc. reflexivity.
Qed.

(** The streaming stage with a fault inside the loop. *)
Lemma stream_to_file_fault (env : Environment) (resp : response)
      (name : str) (size : Z) (auth : dict) (shown : str) (w : world)
      (f : fault) :
  dict_get auth (lit "sourceVersion") = Ok (VStr shown) ->
  open_fault env name = None ->
  stream_fault env = Some f ->
  strikes f (iter_content chunk_size (body resp)) ->
  exists w',
    stream_to_file env resp name size auth w
    = (Raise (SystemExit (handler_status (f_exn f))), w')
    /\ net w' = net w
    /\ stdout w' = stdout w ++ [downloading_line name shown;
                                Line (handler_message (f_exn f))]
    /\ fs w' !! name = None
    /\ (forall other, other <> name -> fs w' !! other = fs w !! other)
    /\ exists b, progressBar w' = Some b /\ total b = size /\ closed b = true.
Proof.
  intros Hv Hopen Hfault Hstrikes. unfold stream_to_file, try_except.
  rewrite (bind_lift_Ok _ shown) by (by rewrite Hv).
  rewrite bind_print, bind_tqdm_new, bind_open_wb by done.
  rewrite Hfault.
  set (chunks := iter_content chunk_size (body resp)) in *.
  clearbody chunks.
  set (w0 := set_fs _ _).
  destruct (stream_loop_fault f name chunks 0 w0
              {| total := size; n := 0; closed := false |} [])
    as (w1 & Hrun & Hn & Ho & [content Hc] & Hother & b & b1 & Hb & Hb1 & Ht & Hcl).
  { reflexivity. }
  { unfold w0, set_fs. cbn. by rewrite lookup_insert_eq. }
  { lia. }
  { unfold strikes in Hstrikes. destruct (f_phase f); cbn; lia. }
  rewrite (bind_Raise _ _ _ w1 (f_exn f)) by done.
  assert (Hend :
    (bind tqdm_close
       (fun _ => bind (os_remove name)
          (fun _ => bind (print (Line (handler_message (f_exn f))))
             (fun _ => @exit unit (handler_status (f_exn f))))) w1)
    = (Raise (SystemExit (handler_status (f_exn f))),
       printed (Line (handler_message (f_exn f)))
         (set_fs (delete name (fs w1))
            (set_bar (Some {| total := total b1; n := n b1; closed := true |}) w1))))
    by (by apply (cleanup_runs _ _ _ _ _ content)).
  exists (printed (Line (handler_message (f_exn f)))
            (set_fs (delete name (fs w1))
               (set_bar (Some {| total := total b1; n := n b1; closed := true |})
                        w1))).
  split.
  { rewrite <- Hend. by destruct (f_exn f). }
  unfold w0 in *. injection Hb as <-. cbn in *.
  repeat split.
  - done.
  - rewrite Ho. by rewrite <- app_assoc.
  - by rewrite lookup_delete_eq.
  - intros other Hne. rewrite lookup_delete_ne by done.
    rewrite Hother by done. by rewrite lookup_insert_ne.
  - by exists {| total := total b1; n := n b1; closed := true |}.
Qed.

(** ** From the command line to the streaming stage *)

Lemma find_source_elem (l : list dict) (version : str) (c : dict) :
  find_source_by_sourcever l version = Ok (Some c) -> c ∈ l.
Proof.
  induction l as [|x l IH]; [done|].
  cbn [find_source_by_sourcever]. unfold rbind.
  destruct (version_is version x) as [[|]|]; [| |done].
  - intros [= ->]. by left.
  - intros H. right. by apply IH.
Qed.

Lemma main_reaches_streaming (env : Environment) (args : Namespace)
      (q id : str) (auth : dict) (resp : response) (name : str) (size : Z)
      (w : world) :
  reaches_streaming env args q id auth resp name size ->
  main env args w
  = stream_to_file env resp name size auth
      (sent (POST downSrcURL auth requestHeader)
         (sent (GET (modalURL ++ id)) (sent (GET (searchURL ++ q)) w)))
  /\ exists shown, dict_get auth (lit "sourceVersion") = Ok (VStr shown).
Proof.
  intros (version & page & dataList & sel & modal & cd & cl & Hcmd & Hq & Hpage
          & Hdata & Hfind & Hid & Hmodal & Hres & Hpost & Hcd & Hname & Hcl
          & Hsize).
  assert (is_candidate sel) as (id' & v & m & ->).
  { pose proof (extract_dataList_candidates page dataList Hdata) as Hall.
    rewrite Forall_forall in Hall. apply Hall.
    by apply (find_source_elem dataList version). }
  split.
  - rewrite (main_after_search env args w q page dataList) by done.
    rewrite Hcmd. unfold download.
    rewrite (bind_lift_Ok _ (Some (candidate id' v m))) by done.
    change (candidate id' v m) with
      ((lit "uploadId", VStr id') :: tail (candidate id' v m)) at 1.
    cbv iota beta.
    change ((lit "uploadId", VStr id') :: tail (candidate id' v m))
      with (candidate id' v m).
    rewrite (bind_lift_Ok _ (modalURL ++ id)) by (by rewrite Hid).
    rewrite bind_session_get, Hmodal.
    rewrite (bind_lift_Ok _ auth) by done.
    rewrite bind_session_post, Hpost.
    rewrite (bind_lift_Ok _ cd) by done.
    rewrite (bind_lift_Ok _ name) by done.
    rewrite (bind_lift_Ok _ cl) by done.
    by rewrite (bind_lift_Ok _ size).
  - apply resolve_tokens_appends in Hres as (a & cs & tb & ->).
    by exists v.
Qed.

(** ** Requests of the streaming stage *)

Lemma keeps_net_ret {A} (a : A) : keeps_net (ret a).
Proof. by intros w. Qed.

Lemma keeps_net_raise {A} (e : exn) : keeps_net (@raise A e).
Proof. by intros w. Qed.

Lemma keeps_net_exit {A} (code : Z) : keeps_net (@exit A code).
Proof. by intros w. Qed.

Lemma keeps_net_lift {A} (r : result A) : keeps_net (lift r).
Proof. by intros w. Qed.

Lemma keeps_net_bind {A B} (m : M A) (f : A -> M B) :
  keeps_net m -> (forall a, keeps_net (f a)) -> keeps_net (bind m f).
Proof.
  intros Hm Hf w. unfold bind. specialize (Hm w).
  destruct (m w) as [[a|e] w']; cbn in *; [|done].
  by rewrite Hf.
Qed.

Lemma keeps_net_try {A} (m : M A) (h : exn -> M A) :
  keeps_net m -> (forall e, keeps_net (h e)) -> keeps_net (try_except m h).
Proof.
  intros Hm Hh w. unfold try_except. specialize (Hm w).
  destruct (m w) as [[a|e] w']; cbn in *; [done|].
  by rewrite Hh.
Qed.

Lemma keeps_net_print (o : output) : keeps_net (print o).
Proof. by intros w. Qed.

Lemma keeps_net_tqdm_new (t : Z) : keeps_net (tqdm_new t).
Proof. by intros w. Qed.

Lemma keeps_net_tqdm_update (k : nat) : keeps_net (tqdm_update k).
Proof. intros w. unfold tqdm_update. by destruct (progressBar w). Qed.

Lemma keeps_net_tqdm_close : keeps_net tqdm_close.
Proof. intros w. unfold tqdm_close. by destruct (progressBar w). Qed.

Lemma keeps_net_open_wb (env : Environment) (name : str) :
  keeps_net (open_wb env name).
Proof. intros w. unfold open_wb. by destruct (open_fault env name). Qed.

Lemma keeps_net_file_write (name : str) (data : bytes) :
  keeps_net (file_write name data).
Proof. by intros w. Qed.

Lemma keeps_net_os_remove (name : str) : keeps_net (os_remove name).
Proof. intros w. unfold os_remove. by destruct (fs w !! name). Qed.

Create HintDb keeps_net.
#[local] Hint Resolve keeps_net_ret keeps_net_raise keeps_net_exit keeps_net_lift
  keeps_net_print keeps_net_tqdm_new keeps_net_tqdm_update keeps_net_tqdm_close
  keeps_net_open_wb keeps_net_file_write keeps_net_os_remove : keeps_net.

Ltac keeps_net_chain :=
  repeat first
    [ apply keeps_net_bind; [|intros ?]
    | solve [auto with keeps_net] ].

Lemma keeps_net_stream_loop (fl : option fault) (name : str)
      (chunks : list bytes) (i : nat) :
  keeps_net (stream_loop fl name i chunks).
Proof.
  revert i. induction chunks as [|chunk rest IH]; intros i;
    cbn [stream_loop]; destruct (read_fault fl i); auto with keeps_net.
  apply keeps_net_bind; [|intros _; apply keeps_net_bind; [|intros _; apply IH]].
  - destruct (write_fault fl i) as [[k e]|]; keeps_net_chain.
  - destruct (update_fault fl i); auto with keeps_net.
Qed.

Lemma keeps_net_stream_to_file (env : Environment) (resp : response)
      (name : str) (size : Z) (auth : dict) :
  keeps_net (stream_to_file env resp name size auth).
Proof.
  unfold stream_to_file. apply keeps_net_try.
  - repeat (apply keeps_net_bind; [|intros ?]); auto with keeps_net.
    apply keeps_net_stream_loop.
  - intros e. destruct e; keeps_net_chain.
Qed.

(** ** Streaming *)

Lemma sample_reaches_streaming (fl : option fault) :
  reaches_streaming (sample_env fl) (download_args "A520FXXU1")
                    (lit "SM-A520F") (lit "111") sample_auth sample_response
                    sample_name 5.
Proof.
  exists (lit "A520FXXU1"), sample_search_page,
    [ candidate (lit "111") (lit "A520FXXU1") (lit "SM-A520F");
      candidate (lit "222") (lit "A520FXXU2") (lit "SM-A520F");
      candidate (lit "333") (lit "A520FXXU1") (lit "SM-A520W") ],
    (candidate (lit "111") (lit "A520FXXU1") (lit "SM-A520F")),
    sample_modal_page, sample_disposition, (lit "5").
  repeat split; reflexivity.
Defined.

(** C2.  In a run that reaches the streaming stage and meets no fault, the
    body of [N] bytes is read in chunks of [512 * 1024] bytes (the last one
    possibly shorter, none empty); each turn of the loop writes its chunk
    and then advances the progress bar by the chunk's length; at the end
    the destination file holds exactly the [N] bytes of the body, the
    counter of the progress bar is [N], the bar is closed and the run exits
    with status 0. *)
Theorem streaming_writes_whole_body
        (env : Environment) (args : Namespace) (files : gmap (list N) (list byte))
        (q id : str) (auth : dict) (resp : response) (name : str) (size : Z) :
  reaches_streaming env args q id auth resp name size ->
  open_fault env name = None ->
  stream_fault env = None ->
  concat (iter_content chunk_size (body resp)) = body resp
  /\ (forall i c,
        iter_content chunk_size (body resp) !! i = Some c ->
        c = take chunk_size (drop (i * chunk_size) (body resp))
        /\ length c = Nat.min chunk_size (length (body resp) - i * chunk_size)
        /\ (0 < length c)%nat)
  /\ (forall i chunk rest,
        stream_loop None name i (chunk :: rest)
        = (file_write name chunk;;;
           tqdm_update (length chunk);;;
           stream_loop None name (S i) rest))
  /\ exists w shown,
       run env args files = (Exit 0, w)
       /\ fs w !! name = Some (body resp)
       /\ progressBar w = Some {| total := size; n := length (body resp);
                                  closed := true |}
       /\ stdout w = [downloading_line name shown; Line (lit "Done!")].
Proof.
  intros Hreach Hopen Hfault.
  destruct (iter_content_spec chunk_size (body resp) chunk_size_pos)
    as [Hconcat Hchunks].
  split; [done|]. split; [done|]. split; [done|].
  destruct (main_reaches_streaming env args q id auth resp name size
              (initial_world files) Hreach) as [Hmain [shown Hshown]].
  eexists _, shown. unfold run. rewrite Hmain.
  rewrite (stream_to_file_clean env resp name size auth shown) by done.
  split; [reflexivity|]. cbn [fs progressBar stdout].
  split; [apply lookup_insert_eq|]. done.
Qed.

Lemma streaming_witness :
  concat (iter_content chunk_size (body sample_response)) = body sample_response
  /\ (forall i c,
        iter_content chunk_size (body sample_response) !! i = Some c ->
        c = take chunk_size (drop (i * chunk_size) (body sample_response))
        /\ length c
           = Nat.min chunk_size (length (body sample_response) - i * chunk_size)
        /\ (0 < length c)%nat)
  /\ (forall i chunk rest,
        stream_loop None sample_name i (chunk :: rest)
        = (file_write sample_name chunk;;;
           tqdm_update (length chunk);;;
           stream_loop None sample_name (S i) rest))
  /\ exists w shown,
       run (sample_env None) (download_args "A520FXXU1") ∅ = (Exit 0, w)
       /\ fs w !! sample_name = Some (body sample_response)
       /\ progressBar w
          = Some {| total := 5; n := length (body sample_response);
                    closed := true |}
       /\ stdout w = [downloading_line sample_name shown; Line (lit "Done!")].
Proof.
  apply (streaming_writes_whole_body
           (sample_env None) (download_args "A520FXXU1") ∅
           (lit "SM-A520F") (lit "111") sample_auth sample_response
           sample_name 5).
  - apply sample_reaches_streaming.
  - reflexivity.
  - reflexivity.
Defined.

(** C3.  In a run that reaches the streaming loop and is interrupted there
    (while a chunk is read, written or counted), the progress bar is
    closed, the destination file is removed and so does not exist
    afterwards, [Interrupted!] is printed and the run exits with status
    130. *)
Theorem interrupt_removes_partial_file
        (env : Environment) (args : Namespace) (files : gmap (list N) (list byte))
        (q id : str) (auth : dict) (resp : response) (name : str) (size : Z)
        (f : fault) :
  reaches_streaming env args q id auth resp name size ->
  open_fault env name = None ->
  stream_fault env = Some f ->
  f_exn f = KeyboardInterrupt ->
  strikes f (iter_content chunk_size (body resp)) ->
  exists w shown b,
    run env args files = (Exit 130, w)
    /\ progressBar w = Some b /\ closed b = true
    /\ fs w !! name = None
    /\ stdout w = [downloading_line name shown; Line (lit "Interrupted!")].
Proof.
  intros Hreach Hopen Hfault Hexn Hstrikes.
  destruct (main_reaches_streaming env args q id auth resp name size
              (initial_world files) Hreach) as [Hmain [shown Hshown]].
  destruct (stream_to_file_fault env resp name size auth shown
              (sent (POST downSrcURL auth requestHeader)
                 (sent (GET (modalURL ++ id))
                    (sent (GET (searchURL ++ q)) (initial_world files))))
              f Hshown Hopen Hfault Hstrikes)
    as (w & Hrun & _ & Hout & Hgone & _ & b & Hb & _ & Hclosed).
  rewrite Hexn in Hrun, Hout.
  exists w, shown, b. unfold run. rewrite Hmain, Hrun.
  by repeat split.
Qed.

Lemma interrupt_witness :
  exists w shown b,
    run (sample_env (Some sample_interrupt)) (download_args "A520FXXU1") ∅
    = (Exit 130, w)
    /\ progressBar w = Some b /\ closed b = true
    /\ fs w !! sample_name = None
    /\ stdout w = [downloading_line sample_name shown; Line (lit "Interrupted!")].
Proof.
  apply (interrupt_removes_partial_file
           (sample_env (Some sample_interrupt)) (download_args "A520FXXU1") ∅
           (lit "SM-A520F") (lit "111") sample_auth sample_response
           sample_name 5 sample_interrupt).
  - apply sample_reaches_streaming.
  - reflexivity.
  - reflexivity.
  - reflexivity.
  - vm_compute. lia.
Defined.

(** C4.  In a run that reaches the streaming loop and meets there any
    exception other than an interruption, the progress bar is closed, the
    destination file is removed and so does not exist afterwards, [Error!]
    is printed and the run exits with status 1. *)
Theorem failure_removes_partial_file
        (env : Environment) (args : Namespace) (files : gmap (list N) (list byte))
        (q id : str) (auth : dict) (resp : response) (name : str) (size : Z)
        (f : fault) :
  reaches_streaming env args q id auth resp name size ->
  open_fault env name = None ->
  stream_fault env = Some f ->
  f_exn f <> KeyboardInterrupt ->
  strikes f (iter_content chunk_size (body resp)) ->
  exists w shown b,
    run env args files = (Exit 1, w)
    /\ progressBar w = Some b /\ closed b = true
    /\ fs w !! name = None
    /\ stdout w = [downloading_line name shown; Line (lit "Error!")].
Proof.
  intros Hreach Hopen Hfault Hexn Hstrikes.
  destruct (main_reaches_streaming env args q id auth resp name size
              (initial_world files) Hreach) as [Hmain [shown Hshown]].
  destruct (stream_to_file_fault env resp name size auth shown
              (sent (POST downSrcURL auth requestHeader)
                 (sent (GET (modalURL ++ id))
                    (sent (GET (searchURL ++ q)) (initial_world files))))
              f Hshown Hopen Hfault Hstrikes)
    as (w & Hrun & _ & Hout & Hgone & _ & b & Hb & _ & Hclosed).
  assert (handler_status (f_exn f) = 1%Z /\ handler_message (f_exn f) = lit "Error!")
    as [Hs Hm] by (by destruct (f_exn f)).
  rewrite Hs in Hrun. rewrite Hm in Hout.
  exists w, shown, b. unfold run. rewrite Hmain, Hrun.
  by repeat split.
Qed.

Lemma failure_witness :
  exists w shown b,
    run (sample_env (Some sample_failure)) (download_args "A520FXXU1") ∅
    = (Exit 1, w)
    /\ progressBar w = Some b /\ closed b = true
    /\ fs w !! sample_name = None
    /\ stdout w = [downloading_line sample_name shown; Line (lit "Error!")].
Proof.
  apply (failure_removes_partial_file
           (sample_env (Some sample_failure)) (download_args "A520FXXU1") ∅
           (lit "SM-A520F") (lit "111") sample_auth sample_response
           sample_name 5 sample_failure).
  - apply sample_reaches_streaming.
  - reflexivity.
  - reflexivity.
  - discriminate.
  - vm_compute. lia.
Defined.

(** ** Which candidate is used *)

(** The requests of the [download] command once a candidate is selected:
    the modal page of that candidate and, if the tokens resolve, the one
    post of that candidate's form. *)
Lemma download_requests (env : Environment) (dataList : list dict)
      (version : str) (c : dict) (id : str) (w : world) :
  find_source_by_sourcever dataList version = Ok (Some c) ->
  is_candidate c ->
  dict_get c (lit "uploadId") = Ok (VStr id) ->
  net (snd (download env dataList version w)) = net w ++ [GET (modalURL ++ id)]
  \/ exists modal auth,
       get_page env (modalURL ++ id) = Ok modal
       /\ resolve_tokens modal c = Ok auth
       /\ net (snd (download env dataList version w))
          = net w ++ [GET (modalURL ++ id); POST downSrcURL auth requestHeader].
Proof.
  intros Hfind (id' & v & m & ->) Hid. unfold download.
  rewrite (bind_lift_Ok _ (Some (candidate id' v m))) by done.
  change (candidate id' v m) with
    ((lit "uploadId", VStr id') :: tail (candidate id' v m)).
  cbv iota beta.
  change ((lit "uploadId", VStr id') :: tail (candidate id' v m))
    with (candidate id' v m).
  rewrite (bind_lift_Ok _ (modalURL ++ id)) by (by rewrite Hid).
  rewrite bind_session_get.
  destruct (get_page env (modalURL ++ id)) as [modal|e] eqn:Hmodal; [|by left].
  destruct (resolve_tokens modal (candidate id' v m)) as [auth|e] eqn:Hres;
    [|left; by rewrite (bind_lift_Raise _ e)].
  right. exists modal, auth. split; [done|]. split; [done|].
  rewrite (bind_lift_Ok _ auth) by done.
  rewrite bind_session_post.
  assert (Hsent : forall w',
            net w' = net (sent (POST downSrcURL auth requestHeader)
                            (sent (GET (modalURL ++ id)) w)) ->
            net w' = net w ++ [GET (modalURL ++ id);
                               POST downSrcURL auth requestHeader]).
  { intros w' ->. cbn [net sent]. by rewrite <- app_assoc. }
  destruct (post_response env downSrcURL auth requestHeader) as [resp|e];
    [|by apply Hsent].
  destruct (header_get (headers resp) (lit "Content-Disposition")) as [cd|e] eqn:Hcd;
    [|rewrite (bind_lift_Raise _ e) by done; by apply Hsent].
  rewrite (bind_lift_Ok _ cd) by done.
  destruct (sourceFileName_of cd) as [name|e] eqn:Hname;
    [|rewrite (bind_lift_Raise _ e) by done; by apply Hsent].
  rewrite (bind_lift_Ok _ name) by done.
  destruct (header_get (headers resp) (lit "Content-Length")) as [cl|e] eqn:Hcl;
    [|rewrite (bind_lift_Raise _ e) by done; by apply Hsent].
  rewrite (bind_lift_Ok _ cl) by done.
  destruct (py_int cl) as [size|e] eqn:Hsize;
    [|rewrite (bind_lift_Raise _ e) by done; by apply Hsent].
  rewrite (bind_lift_Ok _ size) by done.
  apply Hsent. apply keeps_net_stream_to_file.
Qed.

(** The requests of the [download] command once a candidate is selected,
    exactly. *)
Lemma download_requests_exact (env : Environment) (dataList : list dict)
      (version : str) (c : dict) (id : str) (w : world) :
  find_source_by_sourcever dataList version = Ok (Some c) ->
  is_candidate c ->
  dict_get c (lit "uploadId") = Ok (VStr id) ->
  net (snd (download env dataList version w)) = net w ++ requests_for env id c.
Proof.
  intros Hfind (id' & v & m & ->) Hid. unfold download, requests_for.
  rewrite (bind_lift_Ok _ (Some (candidate id' v m))) by done.
  change (candidate id' v m) with
    ((lit "uploadId", VStr id') :: tail (candidate id' v m)).
  cbv iota beta.
  change ((lit "uploadId", VStr id') :: tail (candidate id' v m))
    with (candidate id' v m).
  rewrite (bind_lift_Ok _ (modalURL ++ id)) by (by rewrite Hid).
  rewrite bind_session_get.
  destruct (get_page env (modalURL ++ id)) as [modal|e] eqn:Hmodal; [|done].
  destruct (resolve_tokens modal (candidate id' v m)) as [auth|e] eqn:Hres;
    [|by rewrite (bind_lift_Raise _ e)].
  rewrite (bind_lift_Ok _ auth) by done.
  rewrite bind_session_post.
  assert (Hsent : forall w',
            net w' = net (sent (POST downSrcURL auth requestHeader)
                            (sent (GET (modalURL ++ id)) w)) ->
            net w' = net w ++ [GET (modalURL ++ id);
                               POST downSrcURL auth requestHeader]).
  { intros w' ->. cbn [net sent]. by rewrite <- app_assoc. }
  destruct (post_response env downSrcURL auth requestHeader) as [resp|e];
    [|by apply Hsent].
  destruct (header_get (headers resp) (lit "Content-Disposition")) as [cd|e] eqn:Hcd;
    [|rewrite (bind_lift_Raise _ e) by done; by apply Hsent].
  rewrite (bind_lift_Ok _ cd) by done.
  destruct (sourceFileName_of cd) as [name|e] eqn:Hname;
    [|rewrite (bind_lift_Raise _ e) by done; by apply Hsent].
  rewrite (bind_lift_Ok _ name) by done.
  destruct (header_get (headers resp) (lit "Content-Length")) as [cl|e] eqn:Hcl;
    [|rewrite (bind_lift_Raise _ e) by done; by apply Hsent].
  rewrite (bind_lift_Ok _ cl) by done.
  destruct (py_int cl) as [size|e] eqn:Hsize;
    [|rewrite (bind_lift_Raise _ e) by done; by apply Hsent].
  rewrite (bind_lift_Ok _ size) by done.
  apply Hsent. apply keeps_net_stream_to_file.
Qed.

Lemma modal_url_injective (id id' : str) :
  GET (modalURL ++ id') = GET (modalURL ++ id) -> id' = id.
Proof. intros H. assert (modalURL ++ id' = modalURL ++ id) as H' by congruence.
  by apply app_inv_head in H'. Qed.

Lemma modal_url_is_not_search (id q : str) :
  GET (modalURL ++ id) <> GET (searchURL ++ q).
Proof. intros H. cbv in H. discriminate H. Qed.

(** C9.  When several candidates carry the requested version, the
    [download] command selects the first of them in list order and uses
    it: after the search request the run sends the modal request for that
    candidate's upload identifier and, when the modal page is fetched and
    read, posts the form resolved from that candidate; these are all the
    requests of the run, so no modal request is ever sent for a later
    candidate with another upload identifier. *)
Theorem first_matching_candidate_is_used
        (env : Environment) (args : Namespace) (files : gmap (list N) (list byte))
        (version q id : str) (page : node) (l1 l2 : list dict) (c : dict) :
  command args = Some (Download version) ->
  quote (model args) = Some q ->
  get_page env (searchURL ++ q) = Ok page ->
  extract_dataList page = Ok (l1 ++ c :: l2) ->
  Forall (fun c' => ~ has_version version c') l1 ->
  has_version version c ->
  dict_get c (lit "uploadId") = Ok (VStr id) ->
  find_source_by_sourcever (l1 ++ c :: l2) version = Ok (Some c)
  /\ net (snd (run env args files))
     = GET (searchURL ++ q) :: requests_for env id c
  /\ (forall c' id',
        c' ∈ l2 ->
        dict_get c' (lit "uploadId") = Ok (VStr id') ->
        id' <> id ->
        GET (modalURL ++ id') ∉ net (snd (run env args files))).
Proof.
  intros Hcmd Hq Hpage Hdata Hno Hc Hid.
  pose proof (extract_dataList_candidates page _ Hdata) as Hall.
  apply Forall_app in Hall as [Hl1 Hcl2].
  apply Forall_cons in Hcl2 as [Hcand _].
  assert (Hfind : find_source_by_sourcever (l1 ++ c :: l2) version = Ok (Some c)).
  { apply find_source_first; try done.
    intros c' Hc'. rewrite Forall_forall in Hno. by apply Hno. }
  assert (Hnet : net (snd (run env args files))
                 = GET (searchURL ++ q) :: requests_for env id c).
  { unfold run.
    rewrite (main_after_search env args _ q page (l1 ++ c :: l2)) by done.
    rewrite Hcmd.
    pose proof (download_requests_exact env (l1 ++ c :: l2) version c id
                  (sent (GET (searchURL ++ q)) (initial_world files))
                  Hfind Hcand Hid) as H.
    destruct (download env _ _ _) as [r w]. cbn [snd] in *. by rewrite H. }
  split; [done|]. split; [done|].
  intros c' id' _ _ Hne Hin. rewrite Hnet in Hin. unfold requests_for in Hin.
  apply elem_of_cons in Hin as [Hin|Hin];
    [by apply modal_url_is_not_search in Hin|].
  apply elem_of_cons in Hin as [Hin|Hin];
    [by apply modal_url_injective in Hin|].
  destruct (get_page env (modalURL ++ id)) as [modal|];
    [|by apply elem_of_nil in Hin].
  destruct (resolve_tokens modal c) as [auth|]; [|by apply elem_of_nil in Hin].
  apply list_elem_of_singleton in Hin. discriminate Hin.
Qed.

Lemma first_matching_witness :
  find_source_by_sourcever
    ([] ++ candidate (lit "111") (lit "A520FXXU1") (lit "SM-A520F")
        :: [ candidate (lit "222") (lit "A520FXXU2") (lit "SM-A520F");
             candidate (lit "333") (lit "A520FXXU1") (lit "SM-A520W") ])
    (lit "A520FXXU1")
  = Ok (Some (candidate (lit "111") (lit "A520FXXU1") (lit "SM-A520F")))
  /\ net (snd (run (sample_env None) (download_args "A520FXXU1") ∅))
     = GET (searchURL ++ lit "SM-A520F")
       :: requests_for (sample_env None) (lit "111")
            (candidate (lit "111") (lit "A520FXXU1") (lit "SM-A520F"))
  /\ (forall c' id',
        c' ∈ [ candidate (lit "222") (lit "A520FXXU2") (lit "SM-A520F");
               candidate (lit "333") (lit "A520FXXU1") (lit "SM-A520W") ] ->
        dict_get c' (lit "uploadId") = Ok (VStr id') ->
        id' <> lit "111" ->
        GET (modalURL ++ id')
        ∉ net (snd (run (sample_env None) (download_args "A520FXXU1") ∅))).
Proof.
  apply (first_matching_candidate_is_used
           (sample_env None) (download_args "A520FXXU1") ∅
           (lit "A520FXXU1") (lit "SM-A520F") (lit "111") sample_search_page
           []
           [ candidate (lit "222") (lit "A520FXXU2") (lit "SM-A520F");
             candidate (lit "333") (lit "A520FXXU1") (lit "SM-A520W") ]
           (candidate (lit "111") (lit "A520FXXU1") (lit "SM-A520F"))).
  - reflexivity.
  - reflexivity.
  - reflexivity.
  - reflexivity.
  - constructor.
  - reflexivity.
  - reflexivity.
Defined.

(** * Further properties *)

(** ** Splitting on one character *)

Lemma split_char_cons (c x : N) (s : str) :
  split [c] (x :: s)
  = if c =? x then [] :: split [c] s else push_char x (split [c] s).
Proof.
  unfold split. cbn [split_aux startswith length Nat.sub].
  rewrite andb_true_r. by destruct (c =? x).
Qed.

Lemma split_char_nonempty (c : N) (s : str) : split [c] s <> [].
Proof.
  induction s as [|x s IH]; [done|].
  rewrite split_char_cons. destruct (c =? x); [done|].
  by destruct (split [c] s).
Qed.

(** No field of a split contains the separator. *)
Lemma split_char_fields (c : N) (s : str) :
  Forall (fun f => c ∉ f) (split [c] s).
Proof.
  induction s as [|x s IH].
  - constructor; [apply not_elem_of_nil | constructor].
  - rewrite split_char_cons. destruct (N.eqb_spec c x) as [->|Hne].
    + constructor; [apply not_elem_of_nil | done].
    + destruct (split [c] s) as [|f fs]; cbn [push_char].
      * constructor; [|constructor].
        intros H. apply list_elem_of_singleton in H. done.
      * apply Forall_cons in IH as [Hf Hfs]. constructor; [|done].
        intros H. apply elem_of_cons in H as [H|H]; done.
Qed.

(** There is a second field exactly when the separator occurs. *)
Lemma split_char_second (c : N) (s : str) :
  split [c] s !! 1%nat = None <-> c ∉ s.
Proof.
  induction s as [|x s IH].
  - split; [intros _; apply not_elem_of_nil | done].
  - rewrite split_char_cons. destruct (N.eqb_spec c x) as [->|Hne].
    + split.
      * pose proof (split_char_nonempty x s).
        destruct (split [x] s); done.
      * intros H. exfalso. apply H. by left.
    + rewrite not_elem_of_cons. rewrite <- IH.
      pose proof (split_char_nonempty c s).
      destruct (split [c] s) as [|f fs]; [done|]. cbn [push_char].
      split; [by intros ? | by intros [_ ?]].
Qed.

(** ** Stripping *)

Lemma lstrip_nil_iff (s : str) :
  lstrip s = [] <-> Forall (fun c => isspace c = true) s.
Proof.
  induction s as [|x s IH]; cbn [lstrip].
  - split; [constructor | done].
  - destruct (isspace x) eqn:Hx.
    + rewrite IH. split; [by constructor | by inversion 1].
    + split; [done|]. inversion 1. congruence.
Qed.

Lemma rstrip_nil_iff (s : str) :
  rstrip s = [] <-> Forall (fun c => isspace c = true) s.
Proof.
  unfold rstrip. split.
  - intros H. apply (f_equal reverse) in H.
    rewrite reverse_involutive in H. cbn in H.
    apply lstrip_nil_iff in H. by rewrite Forall_reverse in H.
  - intros H. rewrite <- Forall_reverse in H. apply lstrip_nil_iff in H.
    by rewrite H.
Qed.

Lemma lstrip_all_space (s : str) :
  Forall (fun c => isspace c = true) (lstrip s) -> lstrip s = [].
Proof.
  intros H. destruct (lstrip s) as [|c t] eqn:E; [done|].
  apply Forall_cons in H as [Hc _].
  assert (isspace c = false) by (apply (lstrip_head s); by rewrite E).
  congruence.
Qed.

Lemma strip_nil_iff (s : str) :
  strip s = [] <-> Forall (fun c => isspace c = true) s.
Proof.
  unfold strip. split.
  - intros H. apply rstrip_nil_iff in H. apply lstrip_all_space in H.
    by apply lstrip_nil_iff.
  - intros H. apply lstrip_nil_iff in H. by rewrite H.
Qed.

(** X1.  Lines 66-67: in the dictionary of a row, [sourceVersion] is empty
    exactly when the text of the third cell is nothing but white space,
    and [sourceModel] is empty exactly when the text of the second cell
    is. *)
Theorem blank_cell_gives_empty_field (row td1 td2 : node) (d : dict) :
  parse_row row = Ok d ->
  find_all (Some (lit "td")) [] row !! 1%nat = Some td1 ->
  find_all (Some (lit "td")) [] row !! 2%nat = Some td2 ->
  (dict_get d (lit "sourceVersion") = Ok (VStr [])
   <-> Forall (fun c => isspace c = true) (get_text td2))
  /\ (dict_get d (lit "sourceModel") = Ok (VStr [])
      <-> Forall (fun c => isspace c = true) (get_text td1)).
Proof.
  intros H H1 H2. apply parse_row_spec in H
    as (td1' & td2' & td5 & a & href & id & H1' & H2' & _ & _ & _ & _ & ->).
  rewrite H1 in H1'. rewrite H2 in H2'.
  injection H1' as <-. injection H2' as <-.
  rewrite <- !strip_nil_iff. split.
  - change (dict_get _ (lit "sourceVersion")) with (Ok (VStr (strip (get_text td2)))).
    split; [by intros [= ->] | by intros ->].
  - change (dict_get _ (lit "sourceModel")) with (Ok (VStr (strip (get_text td1)))).
    split; [by intros [= ->] | by intros ->].
Qed.

Lemma blank_cell_witness :
  (dict_get (candidate (lit "111") [] (lit "SM-A520F")) (lit "sourceVersion")
   = Ok (VStr [])
   <-> Forall (fun c => isspace c = true) (get_text (cell "  ")))
  /\ (dict_get (candidate (lit "111") [] (lit "SM-A520F")) (lit "sourceModel")
      = Ok (VStr [])
      <-> Forall (fun c => isspace c = true) (get_text (cell "SM-A520F"))).
Proof.
  apply (blank_cell_gives_empty_field
           (sample_row "SM-A520F" "  " "111") (cell "SM-A520F") (cell "  "));
    reflexivity.
Defined.

(** X2.  Line 68: the upload identifier of a parsed row is a field of the
    link target split on the single quote, so it never contains a single
    quote itself. *)
Theorem uploadId_has_no_quote (row : node) (d : dict) :
  parse_row row = Ok d ->
  exists id, dict_get d (lit "uploadId") = Ok (VStr id) /\ 39 ∉ id.
Proof.
  intros H. apply parse_row_spec in H
    as (td1 & td2 & td5 & a & href & id & _ & _ & _ & _ & _ & Hid & ->).
  exists id. split; [reflexivity|].
  pose proof (split_char_fields 39 href) as Hall.
  rewrite Forall_forall in Hall. apply Hall.
  apply list_elem_of_lookup. by exists 1%nat.
Qed.

Lemma uploadId_has_no_quote_witness :
  exists id,
    dict_get (candidate (lit "111") (lit "A520FXXU1") (lit "SM-A520F"))
             (lit "uploadId") = Ok (VStr id)
    /\ 39 ∉ id.
Proof.
  apply (uploadId_has_no_quote (sample_row " SM-A520F " " A520FXXU1 " "111")).
  reflexivity.
Defined.

(** X3.  Line 68: a link target without a single quote has no second field,
    so the row raises [IndexError]; with the row loop this ends the search
    stage. *)
Theorem unquoted_link_raises_IndexError (row td1 td2 td5 a : node) (href : str) :
  find_all (Some (lit "td")) [] row !! 1%nat = Some td1 ->
  find_all (Some (lit "td")) [] row !! 2%nat = Some td2 ->
  find_all (Some (lit "td")) [] row !! 5%nat = Some td5 ->
  find (Some (lit "a")) td5 = Some a ->
  getitem a (lit "href") = Ok (VStr href) ->
  39 ∉ href ->
  parse_row row = Raise IndexError.
Proof.
  intros H1 H2 H5 Ha Hh Hq. unfold parse_row, index, rbind.
  rewrite H1, H2, H5, Ha, Hh. unfold as_str.
  apply split_char_second in Hq. change (lit "'") with [39]. by rewrite Hq.
Qed.

Lemma unquoted_link_witness : parse_row unquoted_link_row = Raise IndexError.
Proof.
  apply (unquoted_link_raises_IndexError
           unquoted_link_row
           (cell "SM-A520F") (cell "A520FXXU1")
           (Tag (lit "td") []
              [ Tag (lit "a") [(lit "href", VStr (lit "/download/111"))]
                  [text "Download"] ])
           (Tag (lit "a") [(lit "href", VStr (lit "/download/111"))]
              [text "Download"])
           (lit "/download/111")).
  - reflexivity.
  - reflexivity.
  - reflexivity.
  - reflexivity.
  - reflexivity.
  - vm_compute. intros H. repeat (apply elem_of_cons in H as [H|H]; [discriminate H|]).
    by apply elem_of_nil in H.
Defined.

(** ** The file name, further *)

(** X4.  Line 109: the file name cannot be computed exactly when the
    header value has no equals sign, and the failure is then an
    [IndexError]; a value with an equals sign always gives a name. *)
Theorem filename_needs_equals_sign (content_disposition : str) :
  (sourceFileName_of content_disposition = Raise IndexError
   <-> 61 ∉ content_disposition)
  /\ ((exists name, sourceFileName_of content_disposition = Ok name)
      <-> 61 ∈ content_disposition).
Proof.
  unfold sourceFileName_of, index, rbind. change (lit "=") with [61].
  pose proof (split_char_second 61 content_disposition) as Hsecond.
  destruct (split [61] content_disposition !! 1%nat) as [field|].
  - assert (Hin : 61 ∈ content_disposition).
    { destruct (decide (61 ∈ content_disposition)) as [|Hn]; [done|].
      apply Hsecond in Hn. done. }
    split; (split; [|]).
    + done.
    + intros Hn. by destruct Hn.
    + done.
    + intros _. by eexists.
  - assert (Hn : 61 ∉ content_disposition) by (by apply Hsecond).
    split; (split; [|]).
    + done.
    + done.
    + by intros [name ?].
    + intros Hin. by destruct Hn.
Qed.

Lemma split_char_sublist (c : N) (s : str) :
  Forall (fun f => sublist f s) (split [c] s).
Proof.
  induction s as [|x s IH].
  - constructor; [done | constructor].
  - rewrite split_char_cons. destruct (c =? x).
    + constructor; [apply sublist_nil_l|].
      eapply Forall_impl; [exact IH|]. intros f Hf. by apply sublist_cons.
    + destruct (split [c] s) as [|f fs]; cbn [push_char].
      * constructor; [|constructor]. apply sublist_skip, sublist_nil_l.
      * apply Forall_cons in IH as [Hf Hfs].
        constructor; [by apply sublist_skip|].
        eapply Forall_impl; [exact Hfs|]. intros g Hg. by apply sublist_cons.
Qed.

Lemma list_filter_sublist {A} (f : A -> bool) (l : list A) :
  sublist (List.filter f l) l.
Proof.
  induction l as [|x l IH]; [done|]. simpl.
  destruct (f x); [by apply sublist_skip | by apply sublist_cons].
Qed.

(** X5.  Line 109: a computed file name contains neither a double quote
    nor a semicolon, and its characters come from the header value, in
    order. *)
Theorem filename_is_clean (content_disposition name : str) :
  sourceFileName_of content_disposition = Ok name ->
  (34 ∉ name) /\ (59 ∉ name) /\ sublist name content_disposition.
Proof.
  unfold sourceFileName_of, index, rbind. change (lit "=") with [61].
  destruct (split [61] content_disposition !! 1%nat) as [field|] eqn:Hf; [|done].
  intros [= <-]. change (lit ";") with [59].
  rewrite !replace_char_filter, filter_filter. unfold slice_from_1.
  assert (Hkeep : forall c,
            c ∈ List.filter (fun x => negb (x =? 34) && negb (x =? 59)) (drop 1 field) ->
            c <> 34 /\ c <> 59).
  { intros c Hc. apply list_elem_of_In, filter_In in Hc as [_ Hc].
    apply andb_true_iff in Hc as [H1 H2].
    apply negb_true_iff, N.eqb_neq in H1, H2. done. }
  split; [intros H; by apply Hkeep in H as [? _]|].
  split; [intros H; by apply Hkeep in H as [_ ?]|].
  transitivity (drop 1 field); [apply list_filter_sublist|].
  transitivity field; [apply sublist_drop|].
  pose proof (split_char_sublist 61 content_disposition) as Hall.
  rewrite Forall_forall in Hall. apply Hall.
  apply list_elem_of_lookup. by exists 1%nat.
Qed.

Lemma filename_is_clean_witness :
  (34 ∉ sample_name) /\ (59 ∉ sample_name) /\ sublist sample_name sample_disposition.
Proof.
  apply (filename_is_clean sample_disposition sample_name).
  reflexivity.
Defined.

(** ** Encoding and quoting *)

Lemma encode_char_None (c : N) : encode_char c = None <-> encodable c = false.
Proof.
  unfold encode_char, encodable.
  destruct (N.ltb_spec c 0x80), (N.ltb_spec c 0x800), (N.ltb_spec c 0x10000),
    (N.ltb_spec c 0x110000), (N.leb_spec 0xD800 c), (N.leb_spec c 0xDFFF),
    (N.ltb_spec c 0xD800), (N.ltb_spec 0xDFFF c);
    cbn; split; intros; first [done | lia].
Qed.

Lemma encode_utf8_None (s : str) :
  encode_utf8 s = None <-> Exists (fun c => encodable c = false) s.
Proof.
  induction s as [|c s IH]; cbn [encode_utf8].
  - split; [done | by inversion 1].
  - rewrite Exists_cons, <- IH, <- encode_char_None.
    destruct (encode_char c), (encode_utf8 s); split; try done; try tauto.
    intros [?|?]; done.
Qed.

(** X6.  Line 101: on a modal page that has the three elements, the
    resolver raises [UnicodeEncodeError] exactly when the token value holds
    a surrogate or a value beyond the code points; when it holds none, the
    resolver returns a form. *)
Theorem token_encoding_fails_iff
        (page : node) (c : dict) (box field elem : node)
        (attachIds csrf : pyval) (token : str) :
  find_all (Some (lit "input")) [(lit "type", lit "checkbox")] page
    !! 1%nat = Some box ->
  getitem box (lit "id") = Ok attachIds ->
  find_all None [(lit "name", lit "_csrf")] page !! 0%nat = Some field ->
  getitem field (lit "value") = Ok csrf ->
  find_all None [(lit "id", lit "token")] page !! 0%nat = Some elem ->
  getitem elem (lit "value") = Ok (VStr token) ->
  (resolve_tokens page c = Raise UnicodeEncodeError
   <-> Exists (fun x => encodable x = false) token)
  /\ (Forall (fun x => encodable x = true) token ->
      exists auth, resolve_tokens page c = Ok auth).
Proof.
  intros Hbox Hid Hfield Hcsrf Helem Hvalue.
  unfold resolve_tokens, index, rbind.
  rewrite Hbox, Hid, Hfield, Hcsrf, Helem, Hvalue. unfold as_str.
  rewrite <- encode_utf8_None. split.
  - destruct (encode_utf8 token); split; done.
  - intros Hall. destruct (encode_utf8 token) as [b|] eqn:E; [by eexists|].
    apply encode_utf8_None, Exists_exists in E as (x & Hx & Hbad).
    rewrite Forall_forall in Hall. apply Hall in Hx. congruence.
Qed.

Lemma token_encoding_witness :
  (resolve_tokens sample_modal_page
                  (candidate (lit "111") (lit "A520FXXU1") (lit "SM-A520F"))
   = Raise UnicodeEncodeError
   <-> Exists (fun x => encodable x = false) (lit "t0ken"))
  /\ (Forall (fun x => encodable x = true) (lit "t0ken") ->
      exists auth,
        resolve_tokens sample_modal_page
                       (candidate (lit "111") (lit "A520FXXU1") (lit "SM-A520F"))
        = Ok auth).
Proof.
  apply (token_encoding_fails_iff
           sample_modal_page
           (candidate (lit "111") (lit "A520FXXU1") (lit "SM-A520F"))
           (Tag (lit "input") [attr "type" "checkbox"; attr "id" "9001"] [])
           (Tag (lit "input")
              [attr "type" "hidden"; attr "name" "_csrf"; attr "value" "c5rf"] [])
           (Tag (lit "input")
              [attr "type" "hidden"; attr "id" "token"; attr "value" "t0ken"] [])
           (VStr (lit "9001")) (VStr (lit "c5rf")) (lit "t0ken"));
    reflexivity.
Defined.

Lemma quote_byte_url_chars (b : byte) :
  forallb url_char (quote_byte b) = true.
Proof. destruct b; reflexivity. Qed.

(** X7.  Line 57: the quoted model consists only of characters that
    [quote] never escapes and of percent signs; in particular it holds no
    space, ampersand, question mark or hash. *)
Theorem quoted_model_is_url_safe (s q : str) :
  quote s = Some q -> Forall (fun c => url_char c = true) q.
Proof.
  unfold quote. destruct (encode_utf8 s) as [bs|]; [|done]. intros [= <-].
  apply Forall_concat, Forall_forall. intros f Hf.
  apply list_elem_of_In, in_map_iff in Hf as (b & <- & _).
  apply Forall_forall. intros c Hc.
  pose proof (quote_byte_url_chars b) as H. rewrite forallb_forall in H.
  apply H. by apply list_elem_of_In.
Qed.

Lemma quoted_model_witness :
  Forall (fun c => url_char c = true) (lit "SM-G960F%20%2B").
Proof.
  apply (quoted_model_is_url_safe (lit "SM-G960F +")).
  reflexivity.
Defined.

Lemma quote_safe_small (c : N) : quote_safe c = true -> c < 128.
Proof.
  unfold quote_safe.
  rewrite !orb_true_iff, !andb_true_iff, !N.leb_le, !N.eqb_eq. lia.
Qed.

Lemma byte_of_N_to_N (c : N) : c < 256 -> Byte.to_N (byte_of_N c) = c.
Proof.
  intros H. unfold byte_of_N.
  destruct (Byte.of_N c) as [b|] eqn:E.
  - by apply Byte.to_of_N.
  - apply Byte.of_N_None_iff in E. lia.
Qed.

(** X8.  Line 57: a model made only of letters, digits and the characters
    [_ . - ~ /] is put into the search address unchanged. *)
Theorem quote_keeps_safe_model (s : str) :
  Forall (fun c => quote_safe c = true) s -> quote s = Some s.
Proof.
  unfold quote. induction 1 as [|c s Hc _ IH]; [done|].
  cbn [encode_utf8].
  pose proof (quote_safe_small c Hc) as Hsmall.
  unfold encode_char. destruct (N.ltb_spec c 0x80); [|lia].
  destruct (encode_utf8 s) as [bs|]; [|done].
  injection IH as IH. cbn [app map concat]. rewrite IH.
  unfold quote_byte. rewrite byte_of_N_to_N by lia. by rewrite Hc.
Qed.

Lemma quote_keeps_safe_witness : quote (lit "SM-A520F") = Some (lit "SM-A520F").
Proof.
  apply (quote_keeps_safe_model (lit "SM-A520F")).
  repeat constructor.
Defined.

(** X9.  Line 57: when the model cannot be encoded, [quote] raises before
    [session.get] is called: the run ends with an uncaught
    [UnicodeEncodeError], no request is sent, nothing is printed and no
    file is touched, whatever the command. *)
Theorem unencodable_model_sends_nothing
        (env : Environment) (args : Namespace) (files : gmap (list N) (list byte)) :
  Exists (fun c => encodable c = false) (model args) ->
  run env args files = (Traceback UnicodeEncodeError, initial_world files).
Proof.
  intros H. apply encode_utf8_None in H.
  unfold run, main, quote. rewrite H.
  by rewrite (bind_lift_Raise _ UnicodeEncodeError).
Qed.

Lemma unencodable_model_witness :
  run (sample_env None) surrogate_args ∅
  = (Traceback UnicodeEncodeError, initial_world ∅).
Proof.
  apply (unencodable_model_sends_nothing (sample_env None) surrogate_args ∅).
  unfold surrogate_args. cbn [model].
  apply Exists_app. right. by left.
Defined.

(** ** Failures of the search stage *)

Lemma main_extraction_failure (env : Environment) (args : Namespace) (w : world)
      (q : str) (page : node) (e : exn) :
  quote (model args) = Some q ->
  get_page env (searchURL ++ q) = Ok page ->
  extract_dataList page = Raise e ->
  main env args w = (Raise e, sent (GET (searchURL ++ q)) w).
Proof.
  intros Hq Hpage Hdata. unfold main.
  rewrite (bind_lift_Ok _ q) by (by rewrite Hq).
  rewrite bind_session_get, Hpage.
  by rewrite (bind_lift_Raise _ e).
Qed.

(** X10.  Lines 59-60: when the page has no table of class [tbl-downList],
    the run ends with an uncaught [IndexError] whatever the command, after
    the search request alone; nothing is printed and no file is touched. *)
Theorem missing_table_raises_IndexError
        (env : Environment) (args : Namespace) (files : gmap (list N) (list byte))
        (q : str) (page : node) :
  quote (model args) = Some q ->
  get_page env (searchURL ++ q) = Ok page ->
  find_all (Some (lit "table")) [(lit "class", lit "tbl-downList")] page = [] ->
  run env args files
  = (Traceback IndexError,
     {| net := [GET (searchURL ++ q)]; stdout := []; fs := files;
        progressBar := None |}).
Proof.
  intros Hq Hpage Hnone. unfold run.
  rewrite (main_extraction_failure env args _ q page IndexError); [done..|].
  unfold extract_dataList, rowSearchTable. by rewrite Hnone.
Qed.

Lemma missing_table_witness :
  run empty_env (download_args "A520FXXU1") ∅
  = (Traceback IndexError,
     {| net := [GET (searchURL ++ lit "SM-A520F")]; stdout := []; fs := ∅;
        progressBar := None |}).
Proof.
  apply (missing_table_raises_IndexError
           empty_env (download_args "A520FXXU1") ∅ (lit "SM-A520F") empty_page);
    reflexivity.
Defined.

(** X11.  Lines 64-68: a selected row with fewer than six cells raises
    [IndexError]. *)
Theorem short_row_raises_IndexError (row : node) :
  (length (find_all (Some (lit "td")) [] row) < 6)%nat ->
  parse_row row = Raise IndexError.
Proof.
  intros Hlen. unfold parse_row, index, rbind.
  destruct (_ !! 1%nat); [|done]. destruct (_ !! 2%nat); [|done].
  rewrite (lookup_ge_None_2 _ 5) by lia. done.
Qed.

Lemma short_row_witness :
  parse_row (Tag (lit "tr") [] [Tag (lit "th") [] [text "Model"]])
  = Raise IndexError.
Proof.
  apply (short_row_raises_IndexError
           (Tag (lit "tr") [] [Tag (lit "th") [] [text "Model"]])).
  vm_compute. lia.
Defined.

Lemma row_loop_raise (pre post : list node) (bad : node) (e : exn)
      (acc : list dict) :
  Forall (fun row => exists d, parse_row row = Ok d) pre ->
  parse_row bad = Raise e ->
  row_loop (pre ++ bad :: post) acc = Raise e.
Proof.
  intros Hpre Hbad. revert acc.
  induction Hpre as [|row pre [d Hd] _ IH]; intros acc;
    cbn [row_loop app]; unfold rbind.
  - by rewrite Hbad.
  - rewrite Hd. apply IH.
Qed.

(** X12.  Lines 63-75: the first selected row that cannot be read ends the
    whole extraction with its exception: no candidate is kept, neither
    from the rows before it nor from the rows after it. *)
Theorem bad_row_aborts_extraction
        (page table : node) (pre post : list node) (bad : node) (e : exn) :
  find_all (Some (lit "table")) [(lit "class", lit "tbl-downList")] page
    !! 0%nat = Some table ->
  classless_rows table = pre ++ bad :: post ->
  Forall (fun row => exists d, parse_row row = Ok d) pre ->
  parse_row bad = Raise e ->
  extract_dataList page = Raise e.
Proof.
  intros Htable Hrows Hpre Hbad.
  unfold extract_dataList, rowSearchTable, index, rbind. rewrite Htable.
  unfold classless_rows in Hrows. rewrite Hrows.
  by apply row_loop_raise.
Qed.

Lemma bad_row_witness : extract_dataList broken_row_page = Raise IndexError.
Proof.
  apply (bad_row_aborts_extraction
           broken_row_page
           (Tag (lit "table") [(lit "class", VList [lit "tbl-downList"])]
              [ sample_row "SM-A520F" "A520FXXU1" "111";
                unquoted_link_row;
                sample_row "SM-A520W" "A520FXXU1" "333" ])
           [sample_row "SM-A520F" "A520FXXU1" "111"]
           [sample_row "SM-A520W" "A520FXXU1" "333"]
           unquoted_link_row IndexError).
  - reflexivity.
  - reflexivity.
  - constructor; [|constructor]. eexists. reflexivity.
  - reflexivity.
Defined.

(** ** The search command *)

Lemma print_list_fields (ts : list (list N * list N * list N)) :
  forall (i : nat) (w : world),
    print_list (map of_fields ts) i w
    = (Ok tt,
       {| net := net w;
          stdout := stdout w ++ imap (fun k => listing_line (i + k)) ts;
          fs := fs w;
          progressBar := progressBar w |}).
Proof.
  induction ts as [|[[id v] m] ts IH]; intros i w.
  - cbn [map print_list imap]. unfold ret. rewrite app_nil_r. by destruct w.
  - cbn [map print_list]. unfold of_fields at 1. cbn [fst snd].
    rewrite (bind_lift_Ok _ m) by reflexivity.
    rewrite (bind_lift_Ok _ v) by reflexivity.
    rewrite bind_print, IH. f_equal. unfold printed. cbn [net stdout fs progressBar].
    f_equal. rewrite <- app_assoc. f_equal. cbn [imap app].
    unfold listing_line at 2. cbn [fst snd]. rewrite Nat.add_0_r. f_equal.
    apply imap_ext. intros k t _. cbn. f_equal. lia.
Qed.

(** X13.  Lines 79-84: the [search] command sends the search request and
    nothing else, touches no file and exits with status 0; it prints one
    numbered line per candidate, counted from 1 in list order, or with
    [--json] the one dump of the list. *)
Theorem search_command_lists_candidates
        (env : Environment) (args : Namespace) (files : gmap (list N) (list byte))
        (json : bool) (q : str) (page : node)
        (ts : list (list N * list N * list N)) :
  command args = Some (Search json) ->
  quote (model args) = Some q ->
  get_page env (searchURL ++ q) = Ok page ->
  extract_dataList page = Ok (map of_fields ts) ->
  run env args files
  = (Exit 0,
     {| net := [GET (searchURL ++ q)];
        stdout := search_output json ts;
        fs := files;
        progressBar := None |}).
Proof.
  intros Hcmd Hq Hpage Hdata. unfold run.
  rewrite (main_after_search env args _ q page (map of_fields ts)) by done.
  rewrite Hcmd. destruct json; [done|].
  unfold bind. by rewrite print_list_fields.
Qed.

Lemma search_command_witness :
  run (sample_env None) (search_args false) ∅
  = (Exit 0,
     {| net := [GET (searchURL ++ lit "SM-A520F")];
        stdout := search_output false sample_fields;
        fs := ∅;
        progressBar := None |}).
Proof.
  apply (search_command_lists_candidates
           (sample_env None) (search_args false) ∅ false (lit "SM-A520F")
           sample_search_page sample_fields);
    reflexivity.
Defined.

(** ** Failures between selection and streaming *)

Lemma main_reaches_modal (env : Environment) (args : Namespace)
      (q id : str) (sel : dict) (modal : node) (w : world) :
  reaches_modal env args q id sel modal ->
  is_candidate sel
  /\ main env args w
     = bind (lift (resolve_tokens modal sel))
         (fun selectedSource =>
            let! requestDown :=
              session_post env downSrcURL selectedSource requestHeader in
            let! cd := lift (header_get (headers requestDown)
                                        (lit "Content-Disposition")) in
            let! sourceFileName := lift (sourceFileName_of cd) in
            let! cl := lift (header_get (headers requestDown)
                                        (lit "Content-Length")) in
            let! sourceSize := lift (py_int cl) in
            stream_to_file env requestDown sourceFileName sourceSize
                           selectedSource)
         (sent (GET (modalURL ++ id)) (sent (GET (searchURL ++ q)) w)).
Proof.
  intros (version & page & dataList & Hcmd & Hq & Hpage & Hdata & Hfind & Hid
          & Hmodal).
  assert (Hcand : is_candidate sel).
  { pose proof (extract_dataList_candidates page dataList Hdata) as Hall.
    rewrite Forall_forall in Hall. apply Hall.
    by apply (find_source_elem dataList version). }
  split; [done|]. destruct Hcand as (id' & v & m & ->).
  rewrite (main_after_search env args w q page dataList) by done.
  rewrite Hcmd. unfold download.
  rewrite (bind_lift_Ok _ (Some (candidate id' v m))) by done.
  change (candidate id' v m) with
    ((lit "uploadId", VStr id') :: tail (candidate id' v m)) at 1.
  cbv iota beta.
  change ((lit "uploadId", VStr id') :: tail (candidate id' v m))
    with (candidate id' v m).
  rewrite (bind_lift_Ok _ (modalURL ++ id)) by (by rewrite Hid).
  by rewrite bind_session_get, Hmodal.
Qed.

Lemma sample_reaches_modal (modal : node) (resp : response)
      (open_answer : option exn) (fl : option fault) :
  reaches_modal (portal modal resp open_answer fl) (download_args "A520FXXU1")
                (lit "SM-A520F") (lit "111")
                (candidate (lit "111") (lit "A520FXXU1") (lit "SM-A520F")) modal.
Proof.
  exists (lit "A520FXXU1"), sample_search_page,
    [ candidate (lit "111") (lit "A520FXXU1") (lit "SM-A520F");
      candidate (lit "222") (lit "A520FXXU2") (lit "SM-A520F");
      candidate (lit "333") (lit "A520FXXU1") (lit "SM-A520W") ].
  repeat split; reflexivity.
Defined.

(** X14.  Lines 96-108: when the three values cannot all be read from the
    modal page, the run ends with the exception of that failure after the
    search request and the modal request: no form is posted, nothing is
    printed and no file is touched. *)
Theorem unresolved_tokens_post_nothing
        (env : Environment) (args : Namespace) (files : gmap (list N) (list byte))
        (q id : str) (sel : dict) (modal : node) (e : exn) :
  reaches_modal env args q id sel modal ->
  resolve_tokens modal sel = Raise e ->
  run env args files
  = (terminate (Raise e),
     {| net := [GET (searchURL ++ q); GET (modalURL ++ id)];
        stdout := []; fs := files; progressBar := None |}).
Proof.
  intros Hreach Hres. unfold run.
  destruct (main_reaches_modal env args q id sel modal (initial_world files) Hreach)
    as [_ ->].
  by rewrite (bind_lift_Raise _ e).
Qed.

Lemma unresolved_tokens_witness :
  run (portal one_checkbox_page sample_response None None)
      (download_args "A520FXXU1") ∅
  = (terminate (Raise IndexError),
     {| net := [GET (searchURL ++ lit "SM-A520F"); GET (modalURL ++ lit "111")];
        stdout := []; fs := ∅; progressBar := None |}).
Proof.
  apply (unresolved_tokens_post_nothing
           (portal one_checkbox_page sample_response None None)
           (download_args "A520FXXU1") ∅ (lit "SM-A520F") (lit "111")
           (candidate (lit "111") (lit "A520FXXU1") (lit "SM-A520F"))
           one_checkbox_page IndexError).
  - apply sample_reaches_modal.
  - reflexivity.
Defined.

(** X15.  Line 99: the resolver takes the second check-box input; a modal
    page with fewer than two of them raises [IndexError], whatever else it
    holds. *)
Theorem single_checkbox_raises_IndexError (page : node) (c : dict) :
  (length (find_all (Some (lit "input")) [(lit "type", lit "checkbox")] page) < 2)%nat ->
  resolve_tokens page c = Raise IndexError.
Proof.
  intros Hlen. unfold resolve_tokens, index, rbind.
  by rewrite (lookup_ge_None_2 _ 1) by lia.
Qed.

Lemma single_checkbox_witness :
  resolve_tokens one_checkbox_page
                 (candidate (lit "111") (lit "A520FXXU1") (lit "SM-A520F"))
  = Raise IndexError.
Proof.
  apply (single_checkbox_raises_IndexError one_checkbox_page).
  vm_compute. lia.
Defined.






(** ** A failing [open] *)

(** The streaming stage when [open] raises: the handler closes the bar and
    removes the file if there is one; if there is none, [os.remove] raises
    inside the handler. *)
Lemma stream_to_file_open_fault (env : Environment) (resp : response)
      (name : str) (size : Z) (auth : dict) (shown : str) (w : world) (e : exn) :
  dict_get auth (lit "sourceVersion") = Ok (VStr shown) ->
  open_fault env name = Some e ->
  stream_to_file env resp name size auth w
  = match fs w !! name with
    | Some _ =>
        (Raise (SystemExit (handler_status e)),
         {| net := net w;
            stdout := stdout w ++ [downloading_line name shown;
                                   Line (handler_message e)];
            fs := delete name (fs w);
            progressBar := Some {| total := size; n := 0; closed := true |} |})
    | None =>
        (Raise FileNotFoundError,
         {| net := net w;
            stdout := stdout w ++ [downloading_line name shown];
            fs := fs w;
            progressBar := Some {| total := size; n := 0; closed := true |} |})
    end.
Proof.
  intros Hv Hopen. unfold stream_to_file, try_except.
  rewrite (bind_lift_Ok _ shown) by (by rewrite Hv).
  rewrite bind_print, bind_tqdm_new.
  unfold bind at 1. unfold open_wb. rewrite Hopen.
  unfold downloading_line.
  destruct e; unfold bind, tqdm_close, os_remove, print, printed, set_bar, set_fs,
    exit, raise; cbn [progressBar fs net stdout];
    destruct (fs w !! name); cbn [progressBar fs net stdout handler_status handler_message];
    rewrite <- ?app_assoc; reflexivity.
Qed.

Lemma portal_reaches_streaming (open_answer : option exn) (fl : option fault) :
  reaches_streaming (portal sample_modal_page sample_response open_answer fl)
                    (download_args "A520FXXU1")
                    (lit "SM-A520F") (lit "111") sample_auth sample_response
                    sample_name 5.
Proof.
  exists (lit "A520FXXU1"), sample_search_page,
    [ candidate (lit "111") (lit "A520FXXU1") (lit "SM-A520F");
      candidate (lit "222") (lit "A520FXXU2") (lit "SM-A520F");
      candidate (lit "333") (lit "A520FXXU1") (lit "SM-A520W") ],
    (candidate (lit "111") (lit "A520FXXU1") (lit "SM-A520F")),
    sample_modal_page, sample_disposition, (lit "5").
  repeat split; reflexivity.
Defined.

(** X17.  Lines 115 and 121-130: when [open] fails and no file of that name
    exists, the handler's own [os.remove] raises: the run ends with an
    uncaught [FileNotFoundError]; the bar is closed, but neither [Error!]
    nor [Interrupted!] is printed and the handler's exit is not reached. *)
Theorem failed_open_without_file_ends_in_FileNotFoundError
        (env : Environment) (args : Namespace) (files : gmap (list N) (list byte))
        (q id : str) (auth : dict) (resp : response) (name : str) (size : Z)
        (e : exn) :
  reaches_streaming env args q id auth resp name size ->
  open_fault env name = Some e ->
  files !! name = None ->
  exists shown,
    run env args files
    = (Traceback FileNotFoundError,
       {| net := download_requests_of q id auth;
          stdout := [downloading_line name shown];
          fs := files;
          progressBar := Some {| total := size; n := 0; closed := true |} |}).
Proof.
  intros Hreach Hopen Hnone.
  destruct (main_reaches_streaming env args q id auth resp name size
              (initial_world files) Hreach) as [Hmain [shown Hshown]].
  exists shown. unfold run. rewrite Hmain.
  rewrite (stream_to_file_open_fault env resp name size auth shown _ e) by done.
  cbn [fs sent initial_world]. by rewrite Hnone.
Qed.

Lemma failed_open_without_file_witness :
  exists shown,
    run (portal sample_modal_page sample_response (Some OtherException) None)
        (download_args "A520FXXU1") ∅
    = (Traceback FileNotFoundError,
       {| net := download_requests_of (lit "SM-A520F") (lit "111") sample_auth;
          stdout := [downloading_line sample_name shown];
          fs := ∅;
          progressBar := Some {| total := 5; n := 0; closed := true |} |}).
Proof.
  apply (failed_open_without_file_ends_in_FileNotFoundError
           (portal sample_modal_page sample_response (Some OtherException) None)
           (download_args "A520FXXU1") ∅
           (lit "SM-A520F") (lit "111") sample_auth sample_response
           sample_name 5 OtherException).
  - apply portal_reaches_streaming.
  - reflexivity.
  - reflexivity.
Defined.

(** X18.  Lines 115 and 121-130: when [open] fails while a file of that
    name already exists, the handler removes that file, which the run
    never wrote to, prints its message and exits with its status. *)
Theorem failed_open_removes_existing_file
        (env : Environment) (args : Namespace) (files : gmap (list N) (list byte))
        (q id : str) (auth : dict) (resp : response) (name : str) (size : Z)
        (e : exn) (old : bytes) :
  reaches_streaming env args q id auth resp name size ->
  open_fault env name = Some e ->
  files !! name = Some old ->
  exists shown,
    run env args files
    = (Exit (handler_status e),
       {| net := download_requests_of q id auth;
          stdout := [downloading_line name shown; Line (handler_message e)];
          fs := delete name files;
          progressBar := Some {| total := size; n := 0; closed := true |} |}).
Proof.
  intros Hreach Hopen Hold.
  destruct (main_reaches_streaming env args q id auth resp name size
              (initial_world files) Hreach) as [Hmain [shown Hshown]].
  exists shown. unfold run. rewrite Hmain.
  rewrite (stream_to_file_open_fault env resp name size auth shown _ e) by done.
  cbn [fs sent initial_world]. by rewrite Hold.
Qed.

Lemma failed_open_removes_existing_witness :
  exists shown,
    run (portal sample_modal_page sample_response (Some OtherException) None)
        (download_args "A520FXXU1") old_files
    = (Exit (handler_status OtherException),
       {| net := download_requests_of (lit "SM-A520F") (lit "111") sample_auth;
          stdout := [downloading_line sample_name shown;
                     Line (handler_message OtherException)];
          fs := delete sample_name old_files;
          progressBar := Some {| total := 5; n := 0; closed := true |} |}).
Proof.
  apply (failed_open_removes_existing_file
           (portal sample_modal_page sample_response (Some OtherException) None)
           (download_args "A520FXXU1") old_files
           (lit "SM-A520F") (lit "111") sample_auth sample_response
           sample_name 5 OtherException [xff]).
  - apply portal_reaches_streaming.
  - reflexivity.
  - reflexivity.
Defined.

(** ** What a download leaves behind *)

(** X19.  Lines 96-120: a download that meets no fault sends the search
    request, the modal request and one post, in this order; it prints the
    two lines, leaves the bar closed at the length of the body, and changes
    the working directory in one place only: the destination holds the
    body, replacing whatever file had that name. *)
Theorem clean_download_final_state
        (env : Environment) (args : Namespace) (files : gmap (list N) (list byte))
        (q id : str) (auth : dict) (resp : response) (name : str) (size : Z) :
  reaches_streaming env args q id auth resp name size ->
  open_fault env name = None ->
  stream_fault env = None ->
  exists shown,
    run env args files
    = (Exit 0,
       {| net := download_requests_of q id auth;
          stdout := [downloading_line name shown; Line (lit "Done!")];
          fs := <[name := body resp]> files;
          progressBar := Some {| total := size; n := length (body resp);
                                 closed := true |} |}).
Proof.
  intros Hreach Hopen Hfault.
  destruct (main_reaches_streaming env args q id auth resp name size
              (initial_world files) Hreach) as [Hmain [shown Hshown]].
  exists shown. unfold run. rewrite Hmain.
  by rewrite (stream_to_file_clean env resp name size auth shown).
Qed.

Lemma clean_download_witness :
  exists shown,
    run (sample_env None) (download_args "A520FXXU1") old_files
    = (Exit 0,
       {| net := download_requests_of (lit "SM-A520F") (lit "111") sample_auth;
          stdout := [downloading_line sample_name shown; Line (lit "Done!")];
          fs := <[sample_name := body sample_response]> old_files;
          progressBar := Some {| total := 5; n := length (body sample_response);
                                 closed := true |} |}).
Proof.
  apply (clean_download_final_state
           (sample_env None) (download_args "A520FXXU1") old_files
           (lit "SM-A520F") (lit "111") sample_auth sample_response
           sample_name 5).
  - apply sample_reaches_streaming.
  - reflexivity.
  - reflexivity.
Defined.

(** The counter of the bar when a fault ends the loop: the bytes of the
    chunks that went through before the faulty one. *)
Lemma stream_loop_fault_bar (f : fault) (name : str) (chunks : list bytes) :
  forall (i : nat) (w w' : world) (b : tqdm),
    progressBar w = Some b ->
    (i <= f_chunk f)%nat ->
    match f_phase f with
    | AtRead => (f_chunk f <= i + length chunks)%nat
    | _ => (f_chunk f < i + length chunks)%nat
    end ->
    stream_loop (Some f) name i chunks w = (Raise (f_exn f), w') ->
    progressBar w'
    = Some {| total := total b;
              n := n b + length (concat (take (f_chunk f - i) chunks));
              closed := closed b |}.
Proof.
  induction chunks as [|chunk rest IH]; intros i w w' b Hb Hi Hin Hrun.
  - destruct f as [j p e]. cbn in *.
    destruct p; [|lia|lia].
    assert (i = j) as -> by lia. rewrite Nat.eqb_refl in Hrun.
    injection Hrun as <-. rewrite Hb, take_nil. cbn.
    rewrite Nat.add_0_r. by destruct b.
  - destruct (decide (f_chunk f = i)) as [Heq|Hne].
    + rewrite Heq, Nat.sub_diag, take_0. cbn [concat length].
      rewrite Nat.add_0_r.
      destruct f as [j p e]. cbn in *. subst j. rewrite Nat.eqb_refl in Hrun.
      destruct p as [|k|]; cbn in Hrun; injection Hrun as <-; cbn;
        rewrite Hb; by destruct b.
    + rewrite (stream_loop_step (Some f) name i chunk rest w b) in Hrun;
        [| by apply read_fault_other | by apply write_fault_other
         | by apply update_fault_other | done].
      rewrite (IH (S i) (after_chunk name chunk b w) w'
                  {| total := total b; n := n b + length chunk;
                     closed := closed b |} eq_refl
                  ltac:(lia)
                  ltac:(cbn [length] in Hin; destruct (f_phase f); lia) Hrun).
      cbn [total n closed].
      replace (f_chunk f - i)%nat with (S (f_chunk f - S i)) by lia.
      cbn [take concat]. rewrite length_app. do 2 f_equal. lia.
Qed.

Lemma chunks_of_take (cs : nat) (fuel : nat) (b : bytes) (k : nat) :
  (0 < cs)%nat -> (length b <= fuel)%nat ->
  concat (take k (chunks_of fuel cs b)) = take (k * cs) b.
Proof.
  intros Hcs. revert fuel b. induction k as [|k IH]; intros fuel b Hlen.
  - by rewrite !take_0.
  - destruct fuel as [|fuel].
    + destruct b; [|simpl in Hlen; lia]. by rewrite take_nil.
    + destruct b as [|x b]; [by rewrite take_nil|].
      cbn [chunks_of take concat].
      rewrite IH by (rewrite length_drop; simpl in *; lia).
      change (S k * cs)%nat with (cs + k * cs)%nat.
      apply take_take_drop.
Qed.

(** The streaming stage with a fault inside the loop, in full. *)
Lemma stream_to_file_fault_exact (env : Environment) (resp : response)
      (name : str) (size : Z) (auth : dict) (shown : str) (w : world)
      (f : fault) :
  dict_get auth (lit "sourceVersion") = Ok (VStr shown) ->
  open_fault env name = None ->
  stream_fault env = Some f ->
  strikes f (iter_content chunk_size (body resp)) ->
  stream_to_file env resp name size auth w
  = (Raise (SystemExit (handler_status (f_exn f))),
     {| net := net w;
        stdout := stdout w ++ [downloading_line name shown;
                               Line (handler_message (f_exn f))];
        fs := delete name (fs w);
        progressBar :=
          Some {| total := size;
                  n := Nat.min (f_chunk f * chunk_size) (length (body resp));
                  closed := true |} |}).
Proof.
  intros Hv Hopen Hfault Hstrikes.
  destruct (stream_to_file_fault env resp name size auth shown w f
              Hv Hopen Hfault Hstrikes)
    as (w' & Hrun & Hnet & Hout & Hgone & Hother & b & Hb & Ht & Hcl).
  rewrite Hrun. f_equal.
  assert (Hbar : n b = Nat.min (f_chunk f * chunk_size) (length (body resp))).
  { revert Hrun. unfold stream_to_file, try_except.
    rewrite (bind_lift_Ok _ shown) by (by rewrite Hv).
    rewrite bind_print, bind_tqdm_new, bind_open_wb by done.
    rewrite Hfault.
    pose proof (chunks_of_take chunk_size (length (body resp)) (body resp)
                  (f_chunk f) chunk_size_pos (le_n _)) as Htake.
    fold (iter_content chunk_size (body resp)) in Htake.
    set (chunks := iter_content chunk_size (body resp)) in *.
    clearbody chunks.
    set (w0 := set_fs _ _).
    destruct (stream_loop_fault f name chunks 0 w0
                {| total := size; n := 0; closed := false |} [])
      as (w1 & Hloop & _ & _ & [content Hc] & _ & b0 & b1 & Hb0 & Hb1 & _ & _).
    { reflexivity. }
    { unfold w0, set_fs. cbn. by rewrite lookup_insert_eq. }
    { lia. }
    { unfold strikes in Hstrikes. destruct (f_phase f); cbn; lia. }
    pose proof (stream_loop_fault_bar f name chunks 0 w0 w1
                  {| total := size; n := 0; closed := false |} eq_refl
                  ltac:(lia)
                  ltac:(unfold strikes in Hstrikes; destruct (f_phase f); cbn; lia)
                  Hloop) as Hbar1.
    rewrite Nat.sub_0_r, Htake, length_take in Hbar1. cbn [total n closed] in Hbar1.
    rewrite (bind_Raise _ _ _ w1 (f_exn f)) by done.
    rewrite Hbar1 in Hb1. injection Hb1 as <-.
    assert (Hend :
      (bind tqdm_close
         (fun _ => bind (os_remove name)
            (fun _ => bind (print (Line (handler_message (f_exn f))))
               (fun _ => @exit unit (handler_status (f_exn f))))) w1)
      = (Raise (SystemExit (handler_status (f_exn f))),
         printed (Line (handler_message (f_exn f)))
           (set_fs (delete name (fs w1))
              (set_bar (Some {| total := size;
                                n := Nat.min (f_chunk f * chunk_size)
                                             (length (body resp));
                                closed := true |}) w1))))
      by (by rewrite (cleanup_runs _ _ _ _ _ content Hbar1 Hc)).
    assert (Hsame :
      match f_exn f with
      | KeyboardInterrupt =>
          tqdm_close;;; os_remove name;;;
          print (Line (lit "Interrupted!"));;; exit 130
      | _ =>
          tqdm_close;;; os_remove name;;; print (Line (lit "Error!"));;; exit 1
      end w1
      = (bind tqdm_close
           (fun _ => bind (os_remove name)
              (fun _ => bind (print (Line (handler_message (f_exn f))))
                 (fun _ => @exit unit (handler_status (f_exn f))))) w1))
      by (by destruct (f_exn f)).
    rewrite Hsame, Hend. intros [= <-].
    cbn [progressBar printed set_fs set_bar] in Hb. by injection Hb as <-. }
  destruct w' as [nt out files bar].
  cbn [net stdout fs progressBar] in *. subst nt out bar.
  destruct b as [t k c]. cbn [total n closed] in *. subst t k c.
  f_equal. apply map_eq. intros other.
  destruct (decide (other = name)) as [->|Hne].
  - by rewrite Hgone, lookup_delete_eq.
  - by rewrite Hother, lookup_delete_ne.
Qed.

(** X20.  Lines 112-130: a download that is struck inside the loop, by an
    interruption or by any other exception, leaves the working directory
    as it was except that no file of the destination name exists any more
    (a file of that name from before is lost); only the three requests
    were sent, and the closed bar shows the bytes of the chunks that went
    through before the faulty one. *)
Theorem faulted_download_final_state
        (env : Environment) (args : Namespace) (files : gmap (list N) (list byte))
        (q id : str) (auth : dict) (resp : response) (name : str) (size : Z)
        (f : fault) :
  reaches_streaming env args q id auth resp name size ->
  open_fault env name = None ->
  stream_fault env = Some f ->
  strikes f (iter_content chunk_size (body resp)) ->
  exists shown,
    run env args files
    = (Exit (handler_status (f_exn f)),
       {| net := download_requests_of q id auth;
          stdout := [downloading_line name shown;
                     Line (handler_message (f_exn f))];
          fs := delete name files;
          progressBar :=
            Some {| total := size;
                    n := Nat.min (f_chunk f * chunk_size) (length (body resp));
                    closed := true |} |}).
Proof.
  intros Hreach Hopen Hfault Hstrikes.
  destruct (main_reaches_streaming env args q id auth resp name size
              (initial_world files) Hreach) as [Hmain [shown Hshown]].
  exists shown. unfold run. rewrite Hmain.
  by rewrite (stream_to_file_fault_exact env resp name size auth shown _ f).
Qed.

Lemma faulted_download_witness :
  exists shown,
    run (sample_env (Some sample_failure)) (download_args "A520FXXU1") old_files
    = (Exit (handler_status (f_exn sample_failure)),
       {| net := download_requests_of (lit "SM-A520F") (lit "111") sample_auth;
          stdout := [downloading_line sample_name shown;
                     Line (handler_message (f_exn sample_failure))];
          fs := delete sample_name old_files;
          progressBar :=
            Some {| total := 5;
                    n := Nat.min (f_chunk sample_failure * chunk_size)
                                 (length (body sample_response));
                    closed := true |} |}).
Proof.
  apply (faulted_download_final_state
           (sample_env (Some sample_failure)) (download_args "A520FXXU1")
           old_files (lit "SM-A520F") (lit "111") sample_auth sample_response
           sample_name 5 sample_failure).
  - apply sample_reaches_streaming.
  - reflexivity.
  - reflexivity.
  - vm_compute. lia.
Defined.

(** ** Selection, in full *)

Lemma find_source_Some_inv (l : list dict) (version : str) (c : dict) :
  Forall is_candidate l ->
  find_source_by_sourcever l version = Ok (Some c) ->
  exists l1 l2,
    l = l1 ++ c :: l2
    /\ Forall (fun c' => ~ has_version version c') l1
    /\ has_version version c.
Proof.
  induction 1 as [|x l (id & v & m & ->) _ IH]; [done|].
  cbn [find_source_by_sourcever]. rewrite version_is_candidate. cbn [rbind].
  destruct (str_eqb v version) eqn:E.
  - intros [= <-]. apply str_eqb_eq in E as ->.
    exists [], l. split; [done|]. split; [constructor|].
    by apply has_version_candidate.
  - intros H. apply IH in H as (l1 & l2 & -> & Hno & Hc).
    exists (candidate id v m :: l1), l2. split; [done|]. split; [|done].
    constructor; [|done]. rewrite has_version_candidate.
    by apply str_eqb_neq in E.
Qed.

Lemma find_source_None_inv (l : list dict) (version : str) :
  Forall is_candidate l ->
  find_source_by_sourcever l version = Ok None ->
  Forall (fun c => ~ has_version version c) l.
Proof.
  induction 1 as [|x l (id & v & m & ->) _ IH]; [constructor|].
  cbn [find_source_by_sourcever]. rewrite version_is_candidate. cbn [rbind].
  destruct (str_eqb v version) eqn:E; [done|].
  intros H. constructor; [|by apply IH].
  rewrite has_version_candidate. by apply str_eqb_neq in E.
Qed.

(** On candidates the selection never raises. *)
Lemma find_source_candidates (l : list dict) (version : str) :
  Forall is_candidate l ->
  find_source_by_sourcever l version = Ok None
  \/ exists c, find_source_by_sourcever l version = Ok (Some c) /\ is_candidate c.
Proof.
  induction 1 as [|x l Hx _ IH]; [by left|].
  pose proof Hx as (id & v & m & ->).
  cbn [find_source_by_sourcever]. rewrite version_is_candidate. cbn [rbind].
  destruct (str_eqb v version); [|done].
  right. by eexists.
Qed.

(** X22.  Lines 47-48: on a list of candidates the selection never
    raises; it returns a candidate exactly when that candidate carries the
    requested version and no candidate before it does, and it returns
    [None] exactly when no candidate carries the version. *)
Theorem selection_characterised (l : list dict) (version : str) :
  Forall is_candidate l ->
  (forall c,
     find_source_by_sourcever l version = Ok (Some c)
     <-> exists l1 l2,
           l = l1 ++ c :: l2
           /\ Forall (fun c' => ~ has_version version c') l1
           /\ has_version version c)
  /\ (find_source_by_sourcever l version = Ok None
      <-> Forall (fun c => ~ has_version version c) l)
  /\ (forall e, find_source_by_sourcever l version <> Raise e).
Proof.
  intros Hall. split; [|split].
  - intros c. split; [by apply find_source_Some_inv|].
    intros (l1 & l2 & -> & Hno & Hc).
    apply Forall_app in Hall as [Hl1 Hcl2].
    apply Forall_cons in Hcl2 as [Hcand _].
    apply find_source_first; try done.
    intros c' Hc'. rewrite Forall_forall in Hno. by apply Hno.
  - split; [by apply find_source_None_inv|].
    intros Hno. apply find_source_none; [done|].
    intros c Hc. rewrite Forall_forall in Hno. by apply Hno.
  - intros e He.
    destruct (find_source_candidates l version Hall) as [H | (c & H & _)];
      congruence.
Qed.

Lemma selection_witness :
  (forall c,
     find_source_by_sourcever (map of_fields sample_fields) (lit "A520FXXU2")
     = Ok (Some c)
     <-> exists l1 l2,
           map of_fields sample_fields = l1 ++ c :: l2
           /\ Forall (fun c' => ~ has_version (lit "A520FXXU2") c') l1
           /\ has_version (lit "A520FXXU2") c)
  /\ (find_source_by_sourcever (map of_fields sample_fields) (lit "A520FXXU2")
      = Ok None
      <-> Forall (fun c => ~ has_version (lit "A520FXXU2") c)
                 (map of_fields sample_fields))
  /\ (forall e,
        find_source_by_sourcever (map of_fields sample_fields) (lit "A520FXXU2")
        <> Raise e).
Proof.
  apply (selection_characterised (map of_fields sample_fields) (lit "A520FXXU2")).
  repeat constructor; by eexists _, _, _.
Defined.

(** X23.  Lines 47-48: the selection reads [sourceVersion] of each
    dictionary in turn; a dictionary without that key, met before any
    match, raises [KeyError], even when a later dictionary would match. *)
Theorem selection_missing_key_raises_KeyError
        (l1 l2 : list dict) (item : dict) (version : str) :
  Forall (fun x => version_is version x = Ok false) l1 ->
  dict_get item (lit "sourceVersion") = Raise KeyError ->
  find_source_by_sourcever (l1 ++ item :: l2) version = Raise KeyError.
Proof.
  intros Hl1 Hitem.
  induction Hl1 as [|x l1 Hx _ IH]; cbn [find_source_by_sourcever app].
  - unfold version_is, rbind. by rewrite Hitem.
  - by rewrite Hx.
Qed.

Lemma selection_missing_key_witness :
  find_source_by_sourcever keyless_list (lit "A520FXXU2") = Raise KeyError.
Proof.
  apply (selection_missing_key_raises_KeyError
           [candidate (lit "111") (lit "A520FXXU1") (lit "SM-A520F")]
           [candidate (lit "333") (lit "A520FXXU2") (lit "SM-A520W")]
           [(lit "uploadId", VStr (lit "222"))] (lit "A520FXXU2")).
  - constructor; [reflexivity | constructor].
  - reflexivity.
Defined.

(** ** Dictionary assignment *)

Lemma dict_get_set_eq (d : dict) (k : str) (v : pyval) :
  dict_get (dict_set d k v) k = Ok v.
Proof.
  induction d as [|[k' v'] d IH]; cbn [dict_set dict_get].
  - by rewrite str_eqb_refl.
  - destruct (str_eqb k' k) eqn:E; cbn [dict_get]; by rewrite E.
Qed.

Lemma dict_get_set_ne (d : dict) (k k' : str) (v : pyval) :
  k' <> k -> dict_get (dict_set d k v) k' = dict_get d k'.
Proof.
  intros Hne. induction d as [|[k0 v0] d IH]; cbn [dict_set dict_get].
  - assert (str_eqb k k' = false) as -> by (apply str_eqb_neq; congruence).
    done.
  - destruct (str_eqb k0 k) eqn:E; cbn [dict_get]; [|by rewrite IH].
    apply str_eqb_eq in E as ->.
    assert (str_eqb k k' = false) as -> by (apply str_eqb_neq; congruence).
    done.
Qed.

Lemma keys_dict_set (d : dict) (k : str) (v : pyval) :
  keys (dict_set d k v) = if bool_decide (k ∈ keys d) then keys d else keys d ++ [k].
Proof.
  unfold keys. induction d as [|[k0 v0] d IH]; cbn [dict_set map fst].
  - rewrite bool_decide_eq_false_2; [done | apply not_elem_of_nil].
  - destruct (str_eqb k0 k) eqn:E; cbn [map fst].
    + apply str_eqb_eq in E as ->.
      rewrite bool_decide_eq_true_2; [done | by left].
    + rewrite IH. apply str_eqb_neq in E.
      destruct (bool_decide (k ∈ map fst d)) eqn:Hin.
      * apply bool_decide_eq_true in Hin.
        rewrite bool_decide_eq_true_2; [done | by right].
      * apply bool_decide_eq_false in Hin.
        rewrite bool_decide_eq_false_2; [done|].
        rewrite not_elem_of_cons. split; [congruence | done].
Qed.

(** X24.  Lines 99-101: storing a value under a key makes a lookup of that
    key return it and leaves every other lookup as it was; a key that is
    already present keeps its place and no key is ever listed twice, a new
    key goes to the end. *)
Theorem dict_set_get (d : dict) (k : str) (v : pyval) :
  dict_get (dict_set d k v) k = Ok v
  /\ (forall k', k' <> k -> dict_get (dict_set d k v) k' = dict_get d k')
  /\ keys (dict_set d k v)
     = (if bool_decide (k ∈ keys d) then keys d else keys d ++ [k])
  /\ (NoDup (keys d) -> NoDup (keys (dict_set d k v))).
Proof.
  split; [apply dict_get_set_eq|].
  split; [intros k'; apply dict_get_set_ne|].
  split; [apply keys_dict_set|].
  rewrite keys_dict_set. intros Hnd.
  destruct (bool_decide (k ∈ keys d)) eqn:Hin; [done|].
  apply bool_decide_eq_false in Hin.
  apply NoDup_app. split; [done|]. split.
  - intros x Hx Hk. apply list_elem_of_singleton in Hk as ->. done.
  - apply NoDup_singleton.
Qed.

(** ** The requests of any run *)

Lemma keeps_net_print_list (dataList : list dict) (i : nat) :
  keeps_net (print_list dataList i).
Proof.
  revert i. induction dataList as [|data rest IH]; intros i; cbn [print_list];
    [auto with keeps_net|].
  repeat (apply keeps_net_bind; [auto with keeps_net | intros ?]).
  apply IH.
Qed.

Lemma run_net (env : Environment) (args : Namespace)
      (files : gmap (list N) (list byte)) :
  net (snd (run env args files)) = net (snd (main env args (initial_world files))).
Proof. unfold run. by destruct (main env args (initial_world files)). Qed.

(** The requests of a run whose search stage succeeded. *)
Lemma dispatch_requests (env : Environment) (args : Namespace)
      (q : str) (page : node) (dataList : list dict) (w : world) :
  quote (model args) = Some q ->
  get_page env (searchURL ++ q) = Ok page ->
  extract_dataList page = Ok dataList ->
  net w = [] ->
  net (snd (main env args w)) = [GET (searchURL ++ q)]
  \/ (exists version id,
        command args = Some (Download version)
        /\ (net (snd (main env args w))
            = [GET (searchURL ++ q); GET (modalURL ++ id)]
            \/ exists auth,
                 net (snd (main env args w)) = download_requests_of q id auth)).
Proof.
  intros Hq Hpage Hdata Hw.
  rewrite (main_after_search env args w q page dataList) by done.
  assert (Hsent : net (sent (GET (searchURL ++ q)) w) = [GET (searchURL ++ q)])
    by (cbn [net sent]; by rewrite Hw).
  destruct (command args) as [[json|version]|]; [| |by left].
  - left. rewrite <- Hsent.
    apply (keeps_net_bind _ (fun _ => ret tt)); [|auto with keeps_net].
    destruct json; [auto with keeps_net | apply keeps_net_print_list].
  - pose proof (extract_dataList_candidates page dataList Hdata) as Hall.
    destruct (find_source_candidates dataList version Hall)
      as [Hnone | (c & Hfind & Hcand)].
    + left. by rewrite download_no_match.
    + right. pose proof Hcand as (id & v & m & Hc).
      exists version, id. split; [done|].
      destruct (download_requests env dataList version c id
                  (sent (GET (searchURL ++ q)) w) Hfind Hcand)
        as [Hnet | (modal & auth & _ & _ & Hnet)].
      * rewrite Hc. apply candidate_uploadId.
      * left. by rewrite Hnet, Hsent.
      * right. exists auth. by rewrite Hnet, Hsent.
Qed.

(** X25.  Lines 57, 96 and 108: whatever the portal answers and whatever
    fails, a run sends at most three requests and always in the same
    order: the search request, then the modal request, then one post; it
    never posts twice and never asks for a second modal page, and the
    modal request and the post occur under the [download] command only. *)
Theorem run_requests_are_ordered
        (env : Environment) (args : Namespace) (files : gmap (list N) (list byte)) :
  net (snd (run env args files)) = []
  \/ exists q,
       quote (model args) = Some q
       /\ (net (snd (run env args files)) = [GET (searchURL ++ q)]
           \/ exists version id,
                command args = Some (Download version)
                /\ (net (snd (run env args files))
                    = [GET (searchURL ++ q); GET (modalURL ++ id)]
                    \/ exists auth,
                         net (snd (run env args files))
                         = download_requests_of q id auth)).
Proof.
  rewrite run_net.
  destruct (quote (model args)) as [q|] eqn:Hq.
  - right. exists q. split; [done|].
    destruct (get_page env (searchURL ++ q)) as [page|e] eqn:Hpage.
    + destruct (extract_dataList page) as [dataList|e] eqn:Hdata.
      * by apply (dispatch_requests env args q page dataList).
      * left. by rewrite (main_extraction_failure env args _ q page e).
    + left. unfold main.
      rewrite (bind_lift_Ok _ q) by (by rewrite Hq).
      by rewrite bind_session_get, Hpage.
  - left. unfold main.
    by rewrite (bind_lift_Raise _ UnicodeEncodeError) by (by rewrite Hq).
Qed.
